(** * MAApp: the AniList fetch routine and the image cache

    A shallow embedding of the parts of the application that carry its
    logic: [app/models.py] (the [MediaItem] record), [app/utils.py]
    (country table, date encoding), [app/anilist.py] (the GraphQL client and
    its JSON-to-record mapping), [app/workers.py] (the fetch worker: abort
    checkpoints, de-duplication, sorting, signals) and [app/cache.py] (the
    image cache with its in-flight table).

    Python values are modelled as follows.
    - [int] is [Z]; [str] is [string], compared byte by byte as Python
      compares code points (the two orders agree on UTF-8 text).
    - [datetime.date] is a record of year, month and day, compared
      lexicographically.
    - a [dict] whose iteration order matters ([uniq] in [FetchWorker.run])
      is an association list in insertion order; the dictionaries of
      [ImageCache] are [gmap]s.
    - an exception is a value of [exn], and code that can raise returns a
      [result].
    - JSON numbers are integers (floating point is not modelled).
    - Builtins of the Python runtime whose output no property here depends
      on ([str.lower], [repr], [json.dumps], the regular expressions of
      [clean_text], the parsing of [int(str)]) are the fields of the class
      [PyBuiltins]: every theorem holds whatever they compute. *)

From Stdlib Require Import ZArith Lia List String Ascii Sorted Permutation.
From stdpp Require Import base option list sorting gmap strings pretty.

#[local] Set Warnings "-register-all".
#[local] Open Scope string_scope.
#[local] Open Scope list_scope.
#[local] Open Scope Z_scope.

(** ** Exceptions and results *)

Inductive exn : Type :=
  | RuntimeError (msg : string)
  | AttributeError (msg : string)
  | TypeError (msg : string)
  | ValueError (msg : string)
  | JSONDecodeError (msg : string)
  | RequestException (msg : string).

(** [str(e)] for the exceptions above: the message they were raised with. *)
Definition str_exn (e : exn) : string :=
  match e with
  | RuntimeError m | AttributeError m | TypeError m
  | ValueError m | JSONDecodeError m | RequestException m => m
  end.

Inductive result (A : Type) : Type :=
  | Ok (a : A)
  | Raise (e : exn).
Arguments Ok {A} a.
Arguments Raise {A} e.

#[global] Instance result_ret : MRet result := fun A a => Ok a.
#[global] Instance result_bind : MBind result := fun A B f m =>
  match m with
  | Ok a => f a
  | Raise e => Raise e
  end.

Definition raises {A} (r : result A) : Prop := exists e, r = Raise e.

(** ** Orders: Python's rich comparison on the values that are sorted *)

Class Cmp (A : Type) := cmp : A -> A -> comparison.

Class CmpOrder (A : Type) `{Cmp A} : Prop := {
  cmp_eq_iff : forall x y : A, cmp x y = Eq <-> x = y;
  cmp_antisym : forall x y : A, cmp x y = CompOpp (cmp y x);
  cmp_lt_trans : forall x y z : A, cmp x y = Lt -> cmp y z = Lt -> cmp x z = Lt
}.

(** Tuples compare lexicographically. *)
Definition lex (c1 c2 : comparison) : comparison :=
  match c1 with
  | Eq => c2
  | _ => c1
  end.

#[global] Instance Z_cmp : Cmp Z := Z.compare.
#[global] Instance string_cmp : Cmp string := String.compare.
#[global] Instance pair_cmp {A B} `{Cmp A, Cmp B} : Cmp (A * B) :=
  fun p q => lex (cmp (fst p) (fst q)) (cmp (snd p) (snd q)).

(** [x >= y] and [x > y] as Python evaluates them on ordered values. *)
Definition geb {A} `{Cmp A} (x y : A) : bool :=
  match cmp x y with
  | Lt => false
  | _ => true
  end.

Definition gtb {A} `{Cmp A} (x y : A) : bool :=
  match cmp x y with
  | Gt => true
  | _ => false
  end.

(** ** datetime.date *)

Record date : Type := mkDate { year : Z; month : Z; day : Z }.

#[global] Instance date_cmp : Cmp date := fun a b =>
  lex (cmp (year a) (year b)) (lex (cmp (month a) (month b)) (cmp (day a) (day b))).

Definition is_leap (y : Z) : bool :=
  (y mod 4 =? 0) && (negb (y mod 100 =? 0) || (y mod 400 =? 0)).

Definition days_in_month (y m : Z) : Z :=
  if m =? 2 then (if is_leap y then 29 else 28)
  else if (m =? 4) || (m =? 6) || (m =? 9) || (m =? 11) then 30
  else 31.

(** [dt.date(y, m, d)]: [None] stands for the [ValueError] (or
    [OverflowError]) of the constructor, which its only caller catches. *)
Definition date_new (y m d : Z) : option date :=
  if (1 <=? y) && (y <=? 9999) && (1 <=? m) && (m <=? 12)
     && (1 <=? d) && (d <=? days_in_month y m)
  then Some (mkDate y m d) else None.

Definition digit (n : Z) : string :=
  String (ascii_of_N (48 + Z.to_N (n mod 10))) EmptyString.

(** [date.isoformat()]: YYYY-MM-DD, zero padded. *)
Definition isoformat (d : date) : string :=
  digit (year d / 1000) +:+ digit (year d / 100) +:+ digit (year d / 10)
  +:+ digit (year d) +:+ "-" +:+ digit (month d / 10) +:+ digit (month d)
  +:+ "-" +:+ digit (day d / 10) +:+ digit (day d).

(** ** JSON values, as [r.json()] returns them *)

Inductive json : Type :=
  | JNull
  | JBool (b : bool)
  | JInt (n : Z)
  | JStr (s : string)
  | JArr (l : list json)
  | JObj (kvs : list (string * json)).

(** ** Builtins of the Python runtime kept abstract *)

Class PyBuiltins : Type := {
  (** [s.lower()] *)
  str_lower : string -> string;
  (** [str(v)] for a value that is not already a [str] *)
  py_repr : json -> string;
  (** [int(s)] for a [str]: the number, or the message of the [ValueError] *)
  int_of_str : string -> string + Z;
  (** [json.dumps(v, indent=2)] *)
  json_dumps_indent2 : json -> string;
  (** the [replace] / [re.sub] / [strip] chain of [clean_text] *)
  strip_markup : string -> string
}.

(** ** app/models.py *)

Module Models.

Record MediaItem : Type := mkMediaItem {
  id : Z;
  media_type : string;
  title : string;
  title_native : string;
  image_url : string;
  country_code : string;
  country : string;
  language : string;
  start_date : option date;
  format : string;
  status : string;
  description : string;
  site_url : string
}.

Definition publication_day (self : MediaItem) : string :=
  match start_date self with
  | Some d => isoformat d
  | None => "Unknown"
  end.

Definition key_date (self : MediaItem) : date :=
  match start_date self with
  | Some d => d
  | None => mkDate 1900 1 1
  end.

End Models.
Export Models.

(** ** Python's view of JSON values *)

(** Truth value of a JSON value: [None], [False], [0], the empty string,
    list and dict are false. *)
Definition truthy (v : json) : bool :=
  match v with
  | JNull => false
  | JBool b => b
  | JInt n => negb (n =? 0)
  | JStr s => negb (String.eqb s "")
  | JArr l => match l with [] => false | _ => true end
  | JObj kvs => match kvs with [] => false | _ => true end
  end.

(** [a or b] *)
Definition py_or (a b : json) : json := if truthy a then a else b.

Definition type_name (v : json) : string :=
  match v with
  | JNull => "NoneType"
  | JBool _ => "bool"
  | JInt _ => "int"
  | JStr _ => "str"
  | JArr _ => "list"
  | JObj _ => "dict"
  end.

Definition no_attribute (v : json) (attr : string) : exn :=
  AttributeError ("'" +:+ type_name v +:+ "' object has no attribute '" +:+ attr +:+ "'").

Fixpoint assoc (k : string) (kvs : list (string * json)) : option json :=
  match kvs with
  | [] => None
  | (k', v) :: rest => if String.eqb k k' then Some v else assoc k rest
  end.

(** [d.get(k, default)]; only a dict has the method. *)
Definition py_get (d : json) (k : string) (dflt : json) : result json :=
  match d with
  | JObj kvs => Ok (default dflt (assoc k kvs))
  | _ => Raise (no_attribute d "get")
  end.

Section Builtins.
Context `{PyBuiltins}.

(** [str(v)] *)
Definition py_str (v : json) : string :=
  match v with
  | JStr s => s
  | _ => py_repr v
  end.

(** [int(v)] *)
Definition py_int (v : json) : result Z :=
  match v with
  | JInt n => Ok n
  | JBool b => Ok (if b then 1 else 0)
  | JStr s =>
      match int_of_str s with
      | inl msg => Raise (ValueError msg)
      | inr n => Ok n
      end
  | _ => Raise (TypeError ("int() argument must be a string, a bytes-like object or a real number, not '"
                           +:+ type_name v +:+ "'"))
  end.

End Builtins.

(** The elements a [for] loop visits: the items of a list, the keys of a
    dict, the characters of a string. *)
Definition py_iter (v : json) : result (list json) :=
  match v with
  | JArr l => Ok l
  | JObj kvs => Ok (map (fun kv => JStr (fst kv)) kvs)
  | JStr s => Ok (map (fun c => JStr (String c EmptyString)) (list_ascii_of_string s))
  | _ => Raise (TypeError ("'" +:+ type_name v +:+ "' object is not iterable"))
  end.

(** ** app/utils.py *)

Module Utils.

Definition ANILIST_GQL : string := "https://graphql.anilist.co".

Definition COUNTRY_MAP : gmap string (string * string) :=
  list_to_map [
    ("JPN", ("Japan", "Japanese"));
    ("KOR", ("South Korea", "Korean"));
    ("CHN", ("China", "Chinese"));
    ("TWN", ("Taiwan", "Chinese"));
    ("USA", ("United States", "English"));
    ("CAN", ("Canada", "English"));
    ("GBR", ("United Kingdom", "English"));
    ("AUS", ("Australia", "English"));
    ("FRA", ("France", "French"));
    ("DEU", ("Germany", "German"));
    ("ESP", ("Spain", "Spanish"));
    ("ITA", ("Italy", "Italian"));
    ("BRA", ("Brazil", "Portuguese"));
    ("MEX", ("Mexico", "Spanish"));
    ("RUS", ("Russia", "Russian"));
    ("IND", ("India", "Hindi"));
    ("PHL", ("Philippines", "Filipino"));
    ("THA", ("Thailand", "Thai"));
    ("VNM", ("Vietnam", "Vietnamese"))
  ].

Arguments COUNTRY_MAP : simpl never.

Definition yyyymmdd_int (d : date) : Z :=
  year d * 10000 + month d * 100 + day d.

(** [clean_text(s)] *)
Definition clean_text `{PyBuiltins} (s : json) : result string :=
  if negb (truthy s) then Ok ""
  else match s with
       | JStr t => Ok (strip_markup t)
       | _ => Raise (no_attribute s "replace")
       end.

End Utils.
Export Utils.

(** ** app/anilist.py *)

Module AniList.

Definition nl : string := String (ascii_of_nat 10) EmptyString.

Definition QUERY : string := "
    query ($type: MediaType, $startGreater: FuzzyDateInt, $startLesser: FuzzyDateInt, $perPage: Int) {
      Page(page: 1, perPage: $perPage) {
        media(type: $type, startDate_greater: $startGreater, startDate_lesser: $startLesser, sort: START_DATE_DESC) {
          id
          type
          format
          status
          title { romaji english native }
          startDate { year month day }
          countryOfOrigin
          description(asHtml: false)
          siteUrl
          coverImage { large medium color }
        }
      }
    }
    ".

(** The [variables] object of the request body. *)
Record variables : Type := mkVariables {
  var_type : string;
  startGreater : Z;
  startLesser : Z;
  perPage : Z
}.

Record payload : Type := mkPayload {
  query : string;
  vars : variables
}.

(** One call of [session.post(url, json=payload, timeout=timeout)]. *)
Record request : Type := mkRequest {
  url : string;
  headers : list (string * string);
  body : payload;
  req_timeout : Z
}.

(** What the caller reads of the response: [r.status_code], [r.text] and
    the outcome of [r.json()]. *)
Record response : Type := mkResponse {
  status_code : Z;
  text : string;
  json_of : result json
}.

(** The outside world: [session.post] returns a response or raises. *)
Definition network : Type := request -> result response.

Record AniListClient : Type := mkClient {
  timeout : Z;
  session_headers : list (string * string)
}.

(** [AniListClient.__init__] *)
Definition new_client (timeout : Z) : AniListClient :=
  mkClient timeout
    [ ("Accept", "application/json");
      ("Content-Type", "application/json");
      ("User-Agent", "MiniAniManga/1.0 (PySide6; personal use)") ].

(** [COUNTRY_MAP.get(cc, (cc or "Unknown", "Unknown"))]: a list or a dict
    cannot be hashed; any other value that is not a key yields the
    default pair. *)
Definition country_language (cc : json) : result (json * json) :=
  match cc with
  | JArr _ | JObj _ => Raise (TypeError ("unhashable type: '" +:+ type_name cc +:+ "'"))
  | JStr s =>
      match COUNTRY_MAP !! s with
      | Some (c, l) => Ok (JStr c, JStr l)
      | None => Ok (py_or cc (JStr "Unknown"), JStr "Unknown")
      end
  | _ => Ok (py_or cc (JStr "Unknown"), JStr "Unknown")
  end.

Section Client.
Context `{PyBuiltins}.

(** The [try] block that computes [start_date] from [sd]; [sd[k]] is the
    value that [sd.get(k)] has just returned. Every exception is caught. *)
Definition start_date_of (sd : json) : option date :=
  match
    y ← py_get sd "year" JNull;
    if truthy y then
      mo ← py_get sd "month" JNull;
      if truthy mo then
        d ← py_get sd "day" JNull;
        if truthy d then
          yi ← py_int y; mi ← py_int mo; di ← py_int d;
          Ok (date_new yi mi di)
        else Ok None
      else Ok None
    else Ok None
  with
  | Ok r => r
  | Raise _ => None
  end.

(** The body of the loop over [media_list]: one API item to one record. *)
Definition map_item (media_type : string) (m : json) : result MediaItem :=
  t ← py_get m "title" JNull;
  let title_block := py_or t (JObj []) in
  en ← py_get title_block "english" JNull;
  title ← (if truthy en then Ok en
           else ro ← py_get title_block "romaji" JNull; Ok (py_or ro (JStr "Untitled")));
  na ← py_get title_block "native" JNull;
  let title_native := py_or na (JStr "") in
  c ← py_get m "coverImage" JNull;
  let cover := py_or c (JObj []) in
  lg ← py_get cover "large" JNull;
  image_url ← (if truthy lg then Ok lg
               else md ← py_get cover "medium" JNull; Ok (py_or md (JStr "")));
  c0 ← py_get m "countryOfOrigin" JNull;
  let cc := py_or c0 (JStr "") in
  cl ← country_language cc;
  s0 ← py_get m "startDate" JNull;
  let sd := py_or s0 (JObj []) in
  let start_date := start_date_of sd in
  i0 ← py_get m "id" JNull;
  id ← py_int (py_or i0 (JInt 0));
  ty ← py_get m "type" JNull;
  f0 ← py_get m "format" JNull;
  st0 ← py_get m "status" JNull;
  d0 ← py_get m "description" JNull;
  description ← clean_text d0;
  u0 ← py_get m "siteUrl" JNull;
  Ok {| id := id;
        media_type := py_str (py_or ty (JStr media_type));
        title := py_str title;
        title_native := py_str title_native;
        image_url := py_str image_url;
        country_code := py_str cc;
        country := py_str (fst cl);
        language := py_str (snd cl);
        start_date := start_date;
        format := py_str (py_or f0 (JStr "Unknown"));
        status := py_str (py_or st0 (JStr "Unknown"));
        description := description;
        site_url := py_str (py_or u0 (JStr "")) |}.

(** The loop: items are appended in order, the first exception ends it. *)
Fixpoint map_items (media_type : string) (media_list : list json) : result (list MediaItem) :=
  match media_list with
  | [] => Ok []
  | m :: rest =>
      it ← map_item media_type m;
      out ← map_items media_type rest;
      Ok (it :: out)
  end.

(** The request [fetch_new] posts. *)
Definition fetch_request (self : AniListClient) (media_type : string)
    (date_from date_to : date) (per_page : Z) : request :=
  let start_greater := year date_from * 10000 + month date_from * 100 + day date_from in
  let start_lesser := year date_to * 10000 + month date_to * 100 + day date_to in
  {| url := ANILIST_GQL;
     headers := session_headers self;
     body := {| query := QUERY;
                vars := {| var_type := media_type;
                           startGreater := start_greater;
                           startLesser := start_lesser;
                           perPage := per_page |} |};
     req_timeout := timeout self |}.

(** What [fetch_new] does with the response. *)
Definition read_response (media_type : string) (r : response) : result (list MediaItem) :=
  if negb (status_code r =? 200) then
    Raise (RuntimeError ("HTTP " +:+ py_repr (JInt (status_code r)) +:+ nl +:+ nl
                         +:+ substring 0 2000 (text r)))
  else
    data ← json_of r;
    errs ← py_get data "errors" JNull;
    if truthy errs then
      Raise (RuntimeError ("AniList GraphQL error:" +:+ nl
                           +:+ substring 0 2000 (json_dumps_indent2 errs)))
    else
      d ← py_get data "data" JNull;
      pg ← py_get (py_or d (JObj [])) "Page" (JObj []);
      md ← py_get pg "media" (JArr []);
      media_list ← py_iter (py_or md (JArr []));
      map_items media_type media_list.

(** [AniListClient.fetch_new]: the requests it posts, and its outcome. *)
Definition fetch_new (net : network) (self : AniListClient) (media_type : string)
    (date_from date_to : date) (per_page : Z) : list request * result (list MediaItem) :=
  let req := fetch_request self media_type date_from date_to per_page in
  ([req], r ← net req; read_response media_type r).

End Client.

End AniList.
Export AniList.

(** ** app/workers.py *)

Module Workers.

(** *** The dictionary [uniq]: keys in insertion order *)

Definition dict_key : Type := string * Z.

(** [d[k] = v]: an existing key keeps its place and takes the new value;
    a new key goes to the end. *)
Fixpoint dict_set {V} (k : dict_key) (v : V) (d : list (dict_key * V)) : list (dict_key * V) :=
  match d with
  | [] => [(k, v)]
  | (k', v') :: rest =>
      if decide (k = k') then (k', v) :: rest else (k', v') :: dict_set k v rest
  end.

Definition item_key (it : MediaItem) : dict_key := (media_type it, id it).

(** [uniq = {}; for it in items: uniq[(it.media_type, it.id)] = it] *)
Definition uniq_of (items : list MediaItem) : list (dict_key * MediaItem) :=
  fold_left (fun uniq it => dict_set (item_key it) it uniq) items [].

(** [list(uniq.values())] *)
Definition values {V} (d : list (dict_key * V)) : list V := map snd d.

Definition dedup (items : list MediaItem) : list MediaItem := values (uniq_of items).

(** *** [list.sort(key=..., reverse=True)]

    Python's sort is stable, also under [reverse=True]: the list ends up
    in descending key order and items with equal keys keep their relative
    order. That fixes the result; this insertion sort computes it. *)

Fixpoint insert_desc {A K} `{Cmp K} (key : A -> K) (x : A) (l : list A) : list A :=
  match l with
  | [] => [x]
  | y :: rest => if geb (key x) (key y) then x :: y :: rest else y :: insert_desc key x rest
  end.

Definition sort_reverse {A K} `{Cmp K} (key : A -> K) (l : list A) : list A :=
  foldr (insert_desc key) [] l.

(** [a] may stand before [b] in a list sorted that way. *)
Definition descending {A K} `{Cmp K} (key : A -> K) (a b : A) : Prop :=
  geb (key a) (key b) = true.

Definition sort_key_t : Type := date * (string * string).

Section Run.
Context `{PyBuiltins}.

(** [lambda x: (x.key_date, x.media_type, x.title.lower())] *)
Definition sort_key (x : MediaItem) : sort_key_t :=
  (key_date x, (media_type x, str_lower (title x))).

(** Lines 34-40 of [run]: concatenate, de-duplicate, sort. *)
Definition collect (anime manga : list MediaItem) : list MediaItem :=
  sort_reverse sort_key (dedup (anime ++ manga)).

(** *** The worker as a machine

    [run] executes on the worker thread while the UI thread may call
    [abort] at any moment. The worker advances in steps; [abort] may be
    scheduled between any two of them. *)

Inductive signal : Type :=
  | finished (items : list MediaItem)
  | error (msg : string).

Record FetchWorker : Type := mkWorker {
  date_from : date;
  date_to : date;
  _abort : bool
}.

(** [FetchWorker.__init__] *)
Definition new_worker (date_from date_to : date) : FetchWorker :=
  mkWorker date_from date_to false.

(** Where [run] stands. *)
Inductive position : Type :=
  | Check1
  | FetchAnime (client : AniListClient)
  | Check2 (client : AniListClient) (anime : list MediaItem)
  | FetchManga (client : AniListClient) (anime : list MediaItem)
  | Check3 (anime manga : list MediaItem)
  | Merge (anime manga : list MediaItem)
  | Returned.

Record state : Type := mkState {
  self : FetchWorker;
  at_pos : position;
  posted : list request;
  emitted : list signal
}.

Definition start (w : FetchWorker) : state := mkState w Check1 [] [].

Definition goto (st : state) (p : position) : state :=
  mkState (self st) p (posted st) (emitted st).

Definition emit (sig : signal) (st : state) : state :=
  mkState (self st) (at_pos st) (posted st) (emitted st ++ [sig]).

(** A call of [fetch_new] inside the [try] of [run]: on success go on with
    [k], on an exception emit [error(str(e))] and return. *)
Definition try_fetch (net : network) (client : AniListClient) (media_type : string)
    (k : list MediaItem -> position) (st : state) : state :=
  let w := self st in
  let '(reqs, r) := fetch_new net client media_type (date_from w) (date_to w) 40 in
  let st' := mkState w (at_pos st) (posted st ++ reqs) (emitted st) in
  match r with
  | Ok items => goto st' (k items)
  | Raise e => goto (emit (error (str_exn e)) st') Returned
  end.

(** One step of [run]. *)
Definition step (net : network) (st : state) : state :=
  match at_pos st with
  | Check1 =>
      let client := new_client 25 in
      if _abort (self st) then goto st Returned else goto st (FetchAnime client)
  | FetchAnime client =>
      try_fetch net client "ANIME" (Check2 client) st
  | Check2 client anime =>
      if _abort (self st) then goto st Returned else goto st (FetchManga client anime)
  | FetchManga client anime =>
      try_fetch net client "MANGA" (Check3 anime) st
  | Check3 anime manga =>
      if _abort (self st) then goto st Returned else goto st (Merge anime manga)
  | Merge anime manga =>
      goto (emit (finished (collect anime manga)) st) Returned
  | Returned => st
  end.

(** [FetchWorker.abort], called from the UI thread. *)
Definition abort (st : state) : state :=
  let w := self st in
  mkState (mkWorker (date_from w) (date_to w) true) (at_pos st) (posted st) (emitted st).

Inductive event : Type :=
  | Step
  | Abort.

Definition fire (net : network) (st : state) (ev : event) : state :=
  match ev with
  | Step => step net st
  | Abort => abort st
  end.

(** A schedule of worker steps and [abort] calls, executed in order. *)
Definition exec (net : network) (evs : list event) (st : state) : state :=
  fold_left (fire net) evs st.

(** [run] left alone: its seven positions are passed in six steps. *)
Definition run (net : network) (w : FetchWorker) : state :=
  exec net (repeat Step 6) (start w).

(** The outcome of the call of [fetch_new] that [run] makes for a media
    type. *)
Definition fetched (net : network) (w : FetchWorker) (media_type : string)
    : result (list MediaItem) :=
  snd (fetch_new net (new_client 25) media_type (date_from w) (date_to w) 40).

(** What a signal says of the two fetches: a list emitted through
    [finished] is [collect] of what they returned, and a message emitted
    through [error] is that of the exception one of them raised. *)
Definition explains (net : network) (w : FetchWorker) (sig : signal) : Prop :=
  match sig with
  | finished items =>
      exists anime manga, fetched net w "ANIME" = Ok anime /\
        fetched net w "MANGA" = Ok manga /\ items = collect anime manga
  | error msg =>
      exists e, msg = str_exn e /\
        (fetched net w "ANIME" = Raise e \/
         exists anime, fetched net w "ANIME" = Ok anime /\ fetched net w "MANGA" = Raise e)
  end.

(** What holds of every state of a worker created as [w]: the dates are
    those of [w], the lists held are what the fetches returned, nothing
    is emitted before [run] returns and at most one signal when it has. *)
Definition on_track (net : network) (w : FetchWorker) (st : state) : Prop :=
  date_from (self st) = date_from w /\ date_to (self st) = date_to w /\
  match at_pos st with
  | Check1 => emitted st = []
  | FetchAnime client => emitted st = [] /\ client = new_client 25
  | Check2 client anime | FetchManga client anime =>
      emitted st = [] /\ client = new_client 25 /\ fetched net w "ANIME" = Ok anime
  | Check3 anime manga | Merge anime manga =>
      emitted st = [] /\ fetched net w "ANIME" = Ok anime /\ fetched net w "MANGA" = Ok manga
  | Returned => emitted st = [] \/ exists sig, emitted st = [sig] /\ explains net w sig
  end.

(** The positions at which [run] reads the flag, and the position behind
    the last of them. *)
Definition at_checkpoint (p : position) : bool :=
  match p with
  | Check1 | Check2 _ _ | Check3 _ _ => true
  | _ => false
  end.

Definition past_checkpoints (p : position) : bool :=
  match p with
  | Merge _ _ => true
  | _ => false
  end.

End Run.

End Workers.
Export Workers.

(** ** app/cache.py *)

Module Cache.

(** What a finished [QNetworkReply] holds: whether [reply.error()] is
    [NoError], and the pixmap [loadFromData] decodes from the bytes read,
    if it decodes one. *)
Record reply (pixmap : Type) : Type := mkReply {
  no_error : bool;
  decoded : option pixmap
}.
Arguments mkReply {pixmap}.
Arguments no_error {pixmap}.
Arguments decoded {pixmap}.

Section ImageCache.
Context {pixmap : Type}.

(** The object: its two dictionaries, with the downloads its network
    manager has been asked for and has not yet completed, and the
    [image_ready] signals emitted so far. A pending entry stands for the
    reply object stored under the URL. *)
Record ImageCache : Type := mkCache {
  _cache : gmap string pixmap;
  _pending : gmap string unit;
  in_flight : list string;
  image_ready : list string
}.

(** [ImageCache.__init__] *)
Definition new_cache : ImageCache := mkCache ∅ ∅ [] [].

(** [ImageCache.get] *)
Definition get (self : ImageCache) (url : string) : option pixmap :=
  if String.eqb url "" then None else _cache self !! url.

(** The guard of [request]. *)
Definition skips (self : ImageCache) (url : string) : bool :=
  String.eqb url "" || bool_decide (is_Some (_cache self !! url))
  || bool_decide (is_Some (_pending self !! url)).

(** [ImageCache.request] *)
Definition request (self : ImageCache) (url : string) : ImageCache :=
  if skips self url then self
  else mkCache (_cache self) (<[url := ()]> (_pending self))
               (in_flight self ++ [url]) (image_ready self).

(** [ImageCache._on_finished] *)
Definition _on_finished (self : ImageCache) (url : string) (r : reply pixmap) : ImageCache :=
  match _pending self !! url with
  | None => self
  | Some _ =>
      let pending := delete url (_pending self) in
      match (if no_error r then decoded r else None) with
      | Some pix =>
          mkCache (<[url := pix]> (_cache self)) pending (in_flight self)
                  (image_ready self ++ [url])
      | None => mkCache (_cache self) pending (in_flight self) (image_ready self)
      end
  end.

Fixpoint remove_first (url : string) (l : list string) : list string :=
  match l with
  | [] => []
  | u :: rest => if String.eqb url u then rest else u :: remove_first url rest
  end.

(** A download in flight completes: it leaves the network manager and the
    [finished] signal of its reply runs [_on_finished]. *)
Definition complete (self : ImageCache) (url : string) (r : reply pixmap) : ImageCache :=
  _on_finished (mkCache (_cache self) (_pending self)
                        (remove_first url (in_flight self)) (image_ready self)) url r.

(** What can happen to the cache: the UI calls [request], or a download
    that is in flight completes. *)
Inductive cache_step : ImageCache -> ImageCache -> Prop :=
  | step_request (self : ImageCache) (url : string) :
      cache_step self (request self url)
  | step_finished (self : ImageCache) (url : string) (r : reply pixmap) :
      In url (in_flight self) ->
      cache_step self (complete self url r).

Inductive reachable : ImageCache -> Prop :=
  | reach_new : reachable new_cache
  | reach_step (s s' : ImageCache) : reachable s -> cache_step s s' -> reachable s'.

End ImageCache.
Arguments ImageCache pixmap : clear implicits.

End Cache.

(** ** The properties as the specification words them *)

Module Spec.

Section Spec.
Context `{PyBuiltins}.

(** "Non-increasing by release date; ties broken by media type, then by
    case-insensitive title": [a] may stand before [b]. *)
Definition stated_before (a b : MediaItem) : Prop :=
  cmp (key_date a) (key_date b) <> Lt /\
  (key_date a = key_date b ->
     cmp (media_type a) (media_type b) <> Gt /\
     (media_type a = media_type b ->
        cmp (str_lower (title a)) (str_lower (title b)) <> Gt)).

Definition stated_order (items : list MediaItem) : Prop :=
  StronglySorted stated_before items.

(** The same with both tie-breaks turned around: among items of one
    release date the media type does not increase, and among those of one
    media type the lower-cased title does not increase. *)
Definition reversed_before (a b : MediaItem) : Prop :=
  cmp (key_date a) (key_date b) <> Lt /\
  (key_date a = key_date b ->
     cmp (media_type a) (media_type b) <> Lt /\
     (media_type a = media_type b ->
        cmp (str_lower (title a)) (str_lower (title b)) <> Lt)).

End Spec.

(** A field of an API item ([None] when the key is missing). *)
Definition field (m : json) (k : string) : json :=
  match m with
  | JObj kvs => default JNull (assoc k kvs)
  | _ => JNull
  end.

(** "startDate has a complete year, month and day": the three parts are
    present and none is falsy. *)
Definition complete_date (m : json) : bool :=
  let sd := field m "startDate" in
  truthy (field sd "year") && truthy (field sd "month") && truthy (field sd "day").

Definition null_or_object (v : json) : bool :=
  match v with JNull | JObj _ => true | _ => false end.

Definition null_or_string (v : json) : bool :=
  match v with JNull | JStr _ => true | _ => false end.

Definition null_or_int (v : json) : bool :=
  match v with JNull | JInt _ => true | _ => false end.

(** "An API item": an object whose fields have the types the query asks
    for, where the mapping depends on them. The start date is left free,
    and so are the fields that only pass through [str]. *)
Definition api_shaped (m : json) : bool :=
  match m with
  | JObj _ =>
      null_or_object (field m "title") && null_or_object (field m "coverImage")
      && null_or_string (field m "countryOfOrigin") && null_or_int (field m "id")
      && null_or_string (field m "description")
  | _ => false
  end.

End Spec.

(** ** Data for the examples *)

Module Examples.

Definition ascii_lower (c : ascii) : ascii :=
  let n := N_of_ascii c in
  if ((65 <=? n) && (n <=? 90))%N then ascii_of_N (n + 32) else c.

Fixpoint lower (s : string) : string :=
  match s with
  | EmptyString => EmptyString
  | String c rest => String (ascii_lower c) (lower rest)
  end.

Fixpoint digits (s : string) (acc : Z) : option Z :=
  match s with
  | EmptyString => Some acc
  | String c rest =>
      let n := N_of_ascii c in
      if ((48 <=? n) && (n <=? 57))%N then digits rest (acc * 10 + Z.of_N (n - 48))
      else None
  end.

(** A runtime to run the model on: exact on ASCII letters, on texts made
    of decimal digits and on scalars. The theorems hold for every
    runtime; this one serves the examples. *)
#[export] Instance runtime : PyBuiltins := {|
  str_lower := lower;
  py_repr := fun v =>
    match v with
    | JNull => "None"
    | JBool true => "True"
    | JBool false => "False"
    | JInt n => pretty n
    | JStr s => s
    | _ => "<" +:+ type_name v +:+ ">"
    end;
  int_of_str := fun s =>
    match s, digits s 0 with
    | String _ _, Some n => inr n
    | _, _ => inl ("invalid literal for int() with base 10: '" +:+ s +:+ "'")
    end;
  json_dumps_indent2 := fun v =>
    match v with
    | JNull => "null"
    | JBool true => "true"
    | JBool false => "false"
    | JInt n => pretty n
    | _ => "<" +:+ type_name v +:+ ">"
    end;
  strip_markup := fun s => s
|}.

Definition api_item (id : Z) (ty title : string) (y mo d : Z) : json :=
  JObj [ ("id", JInt id); ("type", JStr ty);
         ("title", JObj [("romaji", JStr title); ("english", JNull)]);
         ("startDate", JObj [("year", JInt y); ("month", JInt mo); ("day", JInt d)]);
         ("countryOfOrigin", JStr "JPN") ].

Definition page (media : list json) : json :=
  JObj [("data", JObj [("Page", JObj [("media", JArr media)])])].

Definition ok_response (data : json) : response := mkResponse 200 "" (Ok data).

(** A server with one anime and one manga released the same day, both
    under id 100. *)
Definition same_day : network := fun req =>
  if String.eqb (var_type (vars (body req))) "ANIME"
  then Ok (ok_response (page [api_item 100 "ANIME" "Frieren" 2024 1 5]))
  else Ok (ok_response (page [api_item 100 "MANGA" "Berserk" 2024 1 5])).

(** A server that answers every query with a null page. *)
Definition null_page : network := fun _ =>
  Ok (ok_response (JObj [("data", JObj [("Page", JNull)])])).

(** A server that is down. *)
Definition unavailable : network := fun _ =>
  Ok (mkResponse 503 "Service Unavailable" (Raise (JSONDecodeError "Expecting value"))).

Definition january : FetchWorker := new_worker (mkDate 2024 1 1) (mkDate 2024 1 31).

Definition api_undated (id : Z) (ty title : string) : json :=
  JObj [ ("id", JInt id); ("type", JStr ty);
         ("title", JObj [("romaji", JStr title); ("english", JNull)]);
         ("startDate", JObj [("year", JInt 2024); ("month", JNull); ("day", JNull)]);
         ("countryOfOrigin", JStr "JPN") ].

(** The record [fetch_new] makes of [api_item] and of [api_undated]. *)
Definition item (id : Z) (ty title : string) (start : option date) : MediaItem :=
  {| id := id; media_type := ty; title := title; title_native := ""; image_url := "";
     country_code := "JPN"; country := "Japan"; language := "Japanese";
     start_date := start; format := "Unknown"; status := "Unknown";
     description := ""; site_url := "" |}.

Definition frieren : MediaItem := item 100 "ANIME" "Frieren" (Some (mkDate 2024 1 5)).
Definition berserk : MediaItem := item 100 "MANGA" "Berserk" (Some (mkDate 2024 1 5)).
Definition frieren_tv : MediaItem := item 100 "ANIME" "Frieren (TV)" (Some (mkDate 2024 1 12)).
Definition announced : MediaItem := item 7 "ANIME" "Announced" None.

(** A server that lists the anime of id 100 twice, and a manga of the
    same id. *)
Definition repeats : network := fun req =>
  if String.eqb (var_type (vars (body req))) "ANIME"
  then Ok (ok_response (page [api_item 100 "ANIME" "Frieren" 2024 1 5;
                              api_item 100 "ANIME" "Frieren (TV)" 2024 1 12]))
  else Ok (ok_response (page [api_item 100 "MANGA" "Berserk" 2024 1 5])).

(** A server with an anime that has no full start date yet. *)
Definition partly_dated : network := fun req =>
  if String.eqb (var_type (vars (body req))) "ANIME"
  then Ok (ok_response (page [api_undated 7 "ANIME" "Announced";
                              api_item 100 "ANIME" "Frieren" 2024 1 5]))
  else Ok (ok_response (page [])).

End Examples.

(** ** The window: what [Window._download] hands to the worker *)

Module Window.

(** [Window._download]: the worker it creates from the two dates that
    [_get_range_dates] reads off the date edits. The widgets it updates
    and the thread it starts are not modelled. *)
Definition _download (picked_from picked_to : date) : FetchWorker :=
  let '(date_from, date_to) :=
    if gtb picked_from picked_to then (picked_to, picked_from)
    else (picked_from, picked_to) in
  new_worker date_from date_to.

End Window.

(** ** Notions the further properties are stated with *)

Module Shape.

(** A value that [dt.date] can hold: the constructor accepts its parts. *)
Definition is_date (d : date) : Prop :=
  date_new (year d) (month d) (day d) = Some d.

Definition is_object (v : json) : bool :=
  match v with JObj _ => true | _ => false end.

Definition hashable (v : json) : bool :=
  match v with JArr _ | JObj _ => false | _ => true end.

Definition falsy_or_string (v : json) : bool :=
  negb (truthy v) || match v with JStr _ => true | _ => false end.

Section Shape.
Context `{PyBuiltins}.

Definition int_ok (v : json) : bool :=
  match py_int v with Ok _ => true | Raise _ => false end.

(** The items that the loop of [fetch_new] maps without an exception:
    objects whose title and cover are objects or falsy, whose country code
    can be hashed, whose id [int] accepts and whose description is a
    string or falsy. *)
Definition mappable (m : json) : bool :=
  is_object m
  && is_object (py_or (Spec.field m "title") (JObj []))
  && is_object (py_or (Spec.field m "coverImage") (JObj []))
  && hashable (py_or (Spec.field m "countryOfOrigin") (JStr ""))
  && int_ok (py_or (Spec.field m "id") (JInt 0))
  && falsy_or_string (Spec.field m "description").

(** The two requests of [run], and what it may have posted so far: they
    go out in this order, the second only after the first fetch has
    returned. *)
Definition anime_request (w : FetchWorker) : request :=
  fetch_request (new_client 25) "ANIME" (date_from w) (date_to w) 40.

Definition manga_request (w : FetchWorker) : request :=
  fetch_request (new_client 25) "MANGA" (date_from w) (date_to w) 40.

Definition posts_in_order (net : network) (w : FetchWorker) (st : state) : Prop :=
  date_from (self st) = date_from w /\ date_to (self st) = date_to w /\
  match at_pos st with
  | Check1 => posted st = []
  | FetchAnime client => posted st = [] /\ client = new_client 25
  | Check2 client anime | FetchManga client anime =>
      posted st = [anime_request w] /\ client = new_client 25 /\
      fetched net w "ANIME" = Ok anime
  | Check3 anime manga | Merge anime manga =>
      posted st = [anime_request w; manga_request w] /\
      fetched net w "ANIME" = Ok anime
  | Returned =>
      posted st = [] \/ posted st = [anime_request w] \/
      (posted st = [anime_request w; manga_request w] /\
       exists anime, fetched net w "ANIME" = Ok anime)
  end.

End Shape.

End Shape.

(** * Properties *)

(** ** The comparisons are orders *)

Lemma lex_Eq c1 c2 : lex c1 c2 = Eq <-> c1 = Eq /\ c2 = Eq.
Proof. destruct c1, c2; simpl; intuition congruence. Qed.

Lemma lex_CompOpp c1 c2 : lex (CompOpp c1) (CompOpp c2) = CompOpp (lex c1 c2).
Proof. now destruct c1. Qed.

Lemma lex_Lt c1 c2 : lex c1 c2 = Lt <-> c1 = Lt \/ (c1 = Eq /\ c2 = Lt).
Proof. destruct c1, c2; simpl; intuition congruence. Qed.

#[global] Instance Z_order : CmpOrder Z.
Proof.
  split; unfold cmp, Z_cmp.
  - intros x y. apply Z.compare_eq_iff.
  - intros x y. apply Z.compare_antisym.
  - intros x y z. rewrite !Z.compare_lt_iff. lia.
Qed.

Lemma ascii_compare_refl (a : ascii) : Ascii.compare a a = Eq.
Proof. apply N.compare_refl. Qed.

Lemma ascii_compare_lt_trans (a b c : ascii) :
  Ascii.compare a b = Lt -> Ascii.compare b c = Lt -> Ascii.compare a c = Lt.
Proof. unfold Ascii.compare. rewrite !N.compare_lt_iff. lia. Qed.

Lemma string_compare_refl (s : string) : String.compare s s = Eq.
Proof.
  induction s as [|a s IH]; simpl; [reflexivity|].
  now rewrite ascii_compare_refl.
Qed.

Lemma string_compare_lt_trans (x y z : string) :
  String.compare x y = Lt -> String.compare y z = Lt -> String.compare x z = Lt.
Proof.
  revert y z. induction x as [|a x IH]; intros [|b y] [|c z]; simpl; try congruence.
  destruct (Ascii.compare a b) eqn:Hab; try discriminate;
    destruct (Ascii.compare b c) eqn:Hbc; try discriminate; intros Hxy Hyz.
  - apply Ascii.compare_eq_iff in Hab, Hbc. subst.
    rewrite ascii_compare_refl. eauto.
  - apply Ascii.compare_eq_iff in Hab. subst. now rewrite Hbc.
  - apply Ascii.compare_eq_iff in Hbc. subst. now rewrite Hab.
  - now rewrite (ascii_compare_lt_trans a b c).
Qed.

#[global] Instance string_order : CmpOrder string.
Proof.
  split; unfold cmp, string_cmp.
  - intros x y. split; [apply String.compare_eq_iff|].
    intros ->. apply string_compare_refl.
  - apply String.compare_antisym.
  - apply string_compare_lt_trans.
Qed.

#[global] Instance pair_order {A B} `{CmpOrder A, CmpOrder B} : CmpOrder (A * B).
Proof.
  split; unfold cmp, pair_cmp.
  - intros [a b] [a' b']; simpl. rewrite lex_Eq, !cmp_eq_iff.
    split; [intros [-> ->]; reflexivity | intros [= -> ->]; auto].
  - intros [a b] [a' b']; simpl.
    now rewrite (cmp_antisym a a'), (cmp_antisym b b'), lex_CompOpp.
  - intros [a b] [a' b'] [a'' b'']; simpl. rewrite !lex_Lt.
    intros [Hx|[Hx Hx']] [Hy|[Hy Hy']].
    + left. eapply cmp_lt_trans; eauto.
    + apply cmp_eq_iff in Hy. subst. now left.
    + apply cmp_eq_iff in Hx. subst. now left.
    + apply cmp_eq_iff in Hx, Hy. subst. right. split.
      * now apply cmp_eq_iff.
      * eapply cmp_lt_trans; eauto.
Qed.

(** A date compares as the tuple of its year, month and day. *)
Lemma date_cmp_tuple (a b : date) :
  cmp a b = cmp (year a, (month a, day a)) (year b, (month b, day b)).
Proof. reflexivity. Qed.

#[global] Instance date_order : CmpOrder date.
Proof.
  split.
  - intros [y m d] [y' m' d']. rewrite date_cmp_tuple, cmp_eq_iff. simpl.
    split; [intros [= -> -> ->]; reflexivity | intros [= -> -> ->]; reflexivity].
  - intros a b. rewrite !date_cmp_tuple. apply cmp_antisym.
  - intros a b c. rewrite !date_cmp_tuple. apply cmp_lt_trans.
Qed.

Section OrderFacts.
Context {A : Type} `{CmpOrder A}.

Lemma cmp_refl (x : A) : cmp x x = Eq.
Proof. now apply cmp_eq_iff. Qed.

Lemma cmp_Gt_Lt (x y : A) : cmp x y = Gt <-> cmp y x = Lt.
Proof. rewrite (cmp_antisym x y). destruct (cmp y x); simpl; intuition congruence. Qed.

Lemma geb_false (x y : A) : geb x y = false -> geb y x = true.
Proof.
  unfold geb. destruct (cmp x y) eqn:E; try discriminate.
  intros _. apply cmp_Gt_Lt in E. now rewrite E.
Qed.

Lemma geb_not_Lt (x y : A) : geb x y = true <-> cmp x y <> Lt.
Proof. unfold geb. destruct (cmp x y); intuition congruence. Qed.

Lemma geb_trans (x y z : A) : geb x y = true -> geb y z = true -> geb x z = true.
Proof.
  rewrite !geb_not_Lt. intros Hxy Hyz Hxz.
  destruct (cmp x y) eqn:E; try congruence.
  - apply cmp_eq_iff in E. congruence.
  - apply cmp_Gt_Lt in E. apply Hyz. eapply cmp_lt_trans; eauto.
Qed.

End OrderFacts.

(** ** The sort *)

Section Sorting.
Context {A K : Type} `{CmpOrder K} (key : A -> K).

#[local] Abbreviation desc := (descending key).

Lemma desc_trans : Transitive desc.
Proof. intros a b c. apply geb_trans. Qed.

Lemma insert_desc_perm (x : A) (l : list A) : Permutation (insert_desc key x l) (x :: l).
Proof.
  induction l as [|y l IH]; simpl; [reflexivity|].
  destruct (geb (key x) (key y)); [reflexivity|].
  rewrite IH. apply perm_swap.
Qed.

Lemma sort_reverse_perm (l : list A) : Permutation (sort_reverse key l) l.
Proof.
  induction l as [|x l IH]; simpl; [reflexivity|].
  unfold sort_reverse in *. simpl. rewrite insert_desc_perm. now constructor.
Qed.

Lemma insert_desc_hd (x y : A) (l : list A) :
  desc y x -> HdRel desc y l -> HdRel desc y (insert_desc key x l).
Proof.
  intros Hyx Hl. destruct l as [|z l]; simpl.
  - now constructor.
  - destruct (geb (key x) (key z)); constructor; auto.
    now inversion Hl.
Qed.

Lemma insert_desc_sorted (x : A) (l : list A) :
  Sorted desc l -> Sorted desc (insert_desc key x l).
Proof.
  induction 1 as [|y l Hs IH Hhd]; simpl.
  - repeat constructor.
  - destruct (geb (key x) (key y)) eqn:E.
    + constructor; [now constructor|]. now constructor.
    + constructor; [assumption|].
      apply insert_desc_hd; [|assumption]. now apply geb_false.
Qed.

Lemma sort_reverse_sorted (l : list A) : StronglySorted desc (sort_reverse key l).
Proof.
  apply Sorted_StronglySorted; [apply desc_trans|].
  induction l as [|x l IH]; [constructor|].
  apply insert_desc_sorted, IH.
Qed.



(** In a list in descending order, an item with a strictly greater key
    stands before one with a smaller key. *)
Lemma sorted_greater_first (l : list A) (a b : A) :
  StronglySorted desc l -> In a l -> In b l -> cmp (key b) (key a) = Gt ->
  exists l1 l2 l3, l = l1 ++ b :: l2 ++ a :: l3.
Proof.
  intros Hs Ha Hb Hgt.
  apply in_split in Hb as (l1 & r & ->).
  apply in_app_or in Ha as [Ha|[->|Ha]].
  - exfalso.
    assert (Hab : desc a b).
    { apply (StronglySorted_app_1_elem_of desc l1 (b :: r)); auto.
      + now apply list_elem_of_In.
      + apply list_elem_of_In. now left. }
    apply geb_not_Lt in Hab. apply Hab. now apply cmp_Gt_Lt.
  - rewrite cmp_refl in Hgt. discriminate.
  - apply in_split in Ha as (l2 & l3 & ->). now exists l1, l2, l3.
Qed.

End Sorting.

(** ** The dictionary [uniq] *)

Section Dict.
Context {V : Type}.
Implicit Types (d : list (dict_key * V)) (k : dict_key) (v : V).

Lemma dict_set_keys_old k v d :
  In k (map fst d) -> map fst (dict_set k v d) = map fst d.
Proof.
  induction d as [|[k0 v0] d IH]; simpl; [tauto|].
  destruct (decide (k = k0)) as [->|Hne]; simpl; [reflexivity|].
  intros [Heq|Hin]; [congruence|]. now rewrite IH.
Qed.

Lemma dict_set_keys_new k v d :
  ~ In k (map fst d) -> map fst (dict_set k v d) = map fst d ++ [k].
Proof.
  induction d as [|[k0 v0] d IH]; simpl; [reflexivity|].
  destruct (decide (k = k0)) as [->|Hne]; simpl; [tauto|].
  intros Hk. rewrite IH; tauto.
Qed.

Lemma dict_key_seen k d : In k (map fst d) \/ ~ In k (map fst d).
Proof.
  destruct (in_dec (fun x y : dict_key => decide (x = y)) k (map fst d)); auto.
Qed.

Lemma dict_set_NoDup k v d : NoDup (map fst d) -> NoDup (map fst (dict_set k v d)).
Proof.
  intros Hd. destruct (dict_key_seen k d) as [Hk|Hk].
  - now rewrite dict_set_keys_old.
  - rewrite dict_set_keys_new by assumption.
    apply NoDup_app. split; [assumption|]. split.
    + intros x Hx Hx'. apply list_elem_of_In in Hx. apply list_elem_of_singleton in Hx'. now subst.
    + apply NoDup_singleton.
Qed.

Lemma dict_set_In_key k v d x :
  In x (map fst (dict_set k v d)) <-> x = k \/ In x (map fst d).
Proof.
  destruct (dict_key_seen k d) as [Hk|Hk].
  - rewrite dict_set_keys_old by assumption. split; [tauto|]. intros [->|]; assumption.
  - rewrite dict_set_keys_new by assumption. rewrite in_app_iff. simpl. intuition.
Qed.

Lemma dict_set_In_new k v d : In (k, v) (dict_set k v d).
Proof.
  induction d as [|[k0 v0] d IH]; simpl; [now left|].
  destruct (decide (k = k0)) as [->|]; simpl; auto.
Qed.

Lemma dict_set_In_other k v d k' v' :
  k' <> k -> In (k', v') d -> In (k', v') (dict_set k v d).
Proof.
  intros Hne. induction d as [|[k0 v0] d IH]; simpl; [tauto|].
  intros [Heq|Hin]; destruct (decide (k = k0)) as [Hk|Hk]; simpl; auto.
  inversion Heq; subst. congruence.
Qed.

Lemma dict_set_In_inv k v d k' v' :
  In (k', v') (dict_set k v d) -> (k' = k /\ v' = v) \/ In (k', v') d.
Proof.
  induction d as [|[k0 v0] d IH]; simpl.
  - intros [[= -> ->]|[]]. now left.
  - destruct (decide (k = k0)) as [->|]; simpl.
    + intros [[= -> ->]|Hin]; auto.
    + intros [Heq|Hin]; auto. apply IH in Hin. tauto.
Qed.

Lemma dict_functional d k v v' :
  NoDup (map fst d) -> In (k, v) d -> In (k, v') d -> v = v'.
Proof.
  induction d as [|[k0 v0] d IH]; simpl; [tauto|].
  intros Hnd. inversion Hnd as [|? ? Hk0 Hd]; subst.
  intros [[= -> ->]|H1] [[= <-]|H2]; auto.
  - exfalso. apply Hk0, list_elem_of_In. now apply (in_map fst _ (k, v')).
  - exfalso. subst. apply Hk0, list_elem_of_In. now apply (in_map fst _ (k0, v)).
Qed.

End Dict.

Section Dedup.

#[local] Abbreviation put := (fun (uniq : list (dict_key * MediaItem)) it => dict_set (item_key it) it uniq).

#[local] Abbreviation keyed d := (forall k v, In (k, v) d -> item_key v = k).

Lemma fold_put_NoDup items d :
  NoDup (map fst d) -> NoDup (map fst (fold_left put items d)).
Proof.
  revert d. induction items as [|it items IH]; simpl; intros d Hd; [assumption|].
  apply IH. now apply dict_set_NoDup.
Qed.

Lemma fold_put_keyed items d : keyed d -> keyed (fold_left put items d).
Proof.
  revert d. induction items as [|it items IH]; simpl; intros d Hd; [assumption|].
  apply IH. intros k v Hin. apply dict_set_In_inv in Hin as [[-> ->]|Hin]; auto.
Qed.

Lemma fold_put_keys items d k :
  In k (map fst (fold_left put items d)) <-> In k (map fst d) \/ In k (map item_key items).
Proof.
  revert d. induction items as [|it items IH]; simpl; intros d; [tauto|].
  rewrite IH, dict_set_In_key. intuition.
Qed.

Lemma fold_put_keeps items d x :
  In (item_key x, x) d -> (forall y, In y items -> item_key y <> item_key x) ->
  In (item_key x, x) (fold_left put items d).
Proof.
  revert d. induction items as [|it items IH]; simpl; intros d Hin Hlater; [assumption|].
  apply IH; [|auto]. apply dict_set_In_other; [|assumption].
  intros Heq. apply (Hlater it); auto.
Qed.

Lemma keyed_values d : keyed d -> map item_key (values d) = map fst d.
Proof.
  unfold values. induction d as [|[k v] d IH]; simpl; intros Hd; [reflexivity|].
  rewrite IH, (Hd k v); auto.
Qed.

Lemma uniq_of_NoDup items : NoDup (map fst (uniq_of items)).
Proof. apply fold_put_NoDup. constructor. Qed.

Lemma uniq_of_keyed items : keyed (uniq_of items).
Proof. apply fold_put_keyed. intros k v []. Qed.

Lemma dedup_keys items : map item_key (dedup items) = map fst (uniq_of items).
Proof. apply keyed_values, uniq_of_keyed. Qed.

(** Every key of the input occurs exactly once among the values. *)
Lemma dedup_once items :
  NoDup (map item_key (dedup items)) /\
  forall k, In k (map item_key (dedup items)) <-> In k (map item_key items).
Proof.
  rewrite dedup_keys. split; [apply uniq_of_NoDup|].
  intros k. unfold uniq_of. rewrite fold_put_keys. simpl. tauto.
Qed.

(** The value kept under a key is the last item of the input with it. *)
Lemma dedup_last l1 x l2 :
  (forall y, In y l2 -> item_key y <> item_key x) ->
  In x (dedup (l1 ++ x :: l2)) /\
  forall y, In y (dedup (l1 ++ x :: l2)) -> item_key y = item_key x -> y = x.
Proof.
  intros Hlater.
  assert (Hx : In (item_key x, x) (uniq_of (l1 ++ x :: l2))).
  { unfold uniq_of. rewrite fold_left_app. simpl.
    apply fold_put_keeps; [apply dict_set_In_new|assumption]. }
  split.
  - apply (in_map snd) in Hx. exact Hx.
  - intros y Hy Hkey. unfold dedup, values in Hy.
    apply in_map_iff in Hy as ([k y'] & Hsnd & Hin). simpl in Hsnd. subst y'.
    pose proof (uniq_of_keyed _ _ _ Hin) as Hk. rewrite Hkey in Hk. subst k.
    exact (dict_functional _ _ _ _ (uniq_of_NoDup _) Hin Hx).
Qed.

End Dedup.

(** ** The worker *)

Section Worker.
Context `{PyBuiltins}.

Lemma fetched_dates net w w' media_type :
  date_from w' = date_from w -> date_to w' = date_to w ->
  fetched net w' media_type = fetched net w media_type.
Proof. unfold fetched. now intros -> ->. Qed.

Lemma try_fetch_eq net st media_type k :
  try_fetch net (new_client 25) media_type k st =
  let w := self st in
  let req := fetch_request (new_client 25) media_type (date_from w) (date_to w) 40 in
  let st' := mkState w (at_pos st) (posted st ++ [req]) (emitted st) in
  match fetched net w media_type with
  | Ok items => goto st' (k items)
  | Raise e => goto (emit (error (str_exn e)) st') Returned
  end.
Proof. reflexivity. Qed.

Lemma on_track_start net w : on_track net w (start w).
Proof. repeat split. Qed.

Lemma on_track_step net w st : on_track net w st -> on_track net w (step net st).
Proof.
  intros (Hf & Ht & Hpos). unfold step.
  destruct (at_pos st) as [|c|c anime|c anime|anime manga|anime manga|] eqn:Hat.
  - destruct (_abort (self st)); repeat split; simpl; auto.
  - destruct Hpos as [Hem ->]. rewrite try_fetch_eq. cbv zeta.
    rewrite (fetched_dates net w) by assumption.
    destruct (fetched net w "ANIME") as [anime|e] eqn:E; repeat split; simpl; auto.
    right. exists (error (str_exn e)). rewrite Hem. split; [reflexivity|].
    exists e. auto.
  - destruct (_abort (self st)); repeat split; simpl; tauto.
  - destruct Hpos as (Hem & -> & Hanime). rewrite try_fetch_eq. cbv zeta.
    rewrite (fetched_dates net w) by assumption.
    destruct (fetched net w "MANGA") as [manga|e] eqn:E; repeat split; simpl; auto.
    right. exists (error (str_exn e)). rewrite Hem. split; [reflexivity|].
    exists e. split; [reflexivity|]. right. eauto.
  - destruct (_abort (self st)); repeat split; simpl; tauto.
  - destruct Hpos as (Hem & Hanime & Hmanga). repeat split; simpl; auto.
    right. exists (finished (collect anime manga)). rewrite Hem. split; [reflexivity|].
    simpl. eauto.
  - unfold on_track. rewrite Hat. auto.
Qed.

Lemma on_track_abort net w st : on_track net w st -> on_track net w (abort st).
Proof. intros (Hf & Ht & Hpos). repeat split; simpl; auto. Qed.

Lemma on_track_exec net w evs st : on_track net w st -> on_track net w (exec net evs st).
Proof.
  revert st. induction evs as [|[|] evs IH]; simpl; intros st Hst; [assumption| |];
    apply IH; [now apply on_track_step | now apply on_track_abort].
Qed.

(** Whatever the schedule, [run] emits at most one signal, and the two
    fetches explain it. *)
Lemma emitted_explained net w evs :
  emitted (exec net evs (start w)) = [] \/
  exists sig, emitted (exec net evs (start w)) = [sig] /\ explains net w sig.
Proof.
  destruct (on_track_exec net w evs _ (on_track_start net w)) as (_ & _ & Hpos).
  destruct (at_pos (exec net evs (start w))); tauto.
Qed.

(** A list that [run] emits through [finished] is [collect] of what the
    two fetches returned. *)
Lemma finished_collect net w evs items :
  In (finished items) (emitted (exec net evs (start w))) ->
  exists anime manga, fetched net w "ANIME" = Ok anime /\
    fetched net w "MANGA" = Ok manga /\ items = collect anime manga.
Proof.
  intros Hin. destruct (emitted_explained net w evs) as [Hem|(sig & Hem & Hsig)];
    rewrite Hem in Hin; simpl in Hin; [tauto|].
  destruct Hin as [->|[]]. exact Hsig.
Qed.

Lemma collect_perm anime manga : Permutation (collect anime manga) (dedup (anime ++ manga)).
Proof. apply sort_reverse_perm. Qed.

Lemma collect_In anime manga x : In x (collect anime manga) <-> In x (dedup (anime ++ manga)).
Proof.
  split; apply Permutation_in; [|symmetry]; apply collect_perm.
Qed.

Lemma descending_reversed (a b : MediaItem) :
  descending sort_key a b <-> Spec.reversed_before a b.
Proof.
  unfold descending, Spec.reversed_before, sort_key. rewrite geb_not_Lt.
  unfold cmp at 1, pair_cmp; simpl. unfold cmp at 2, pair_cmp; simpl.
  split.
  - intros Hlex. split.
    + intros Hd. apply Hlex. now rewrite Hd.
    + intros Hd. apply cmp_eq_iff in Hd. rewrite Hd in Hlex. simpl in Hlex. split.
      * intros Ht. apply Hlex. now rewrite Ht.
      * intros Ht. apply cmp_eq_iff in Ht. rewrite Ht in Hlex. exact Hlex.
  - intros (Hd & Hrest) Hlex. apply lex_Lt in Hlex as [Hlt|[Heq Hlex]]; [auto|].
    apply cmp_eq_iff in Heq. destruct (Hrest Heq) as [Ht Htitle].
    apply lex_Lt in Hlex as [Hlt|[Heq' Hlex]]; [auto|].
    apply cmp_eq_iff in Heq'. now apply Htitle.
Qed.

End Worker.

(** ** The list that [run] delivers *)

Lemma StronglySorted_impl {A} (R S : A -> A -> Prop) (l : list A) :
  (forall a b, R a b -> S a b) -> StronglySorted R l -> StronglySorted S l.
Proof.
  intros HRS. induction 1 as [|a l Hs IH Hall]; constructor; [assumption|].
  eapply Forall_impl; [exact Hall|]. auto.
Qed.

Section Delivered.
Context `{PyBuiltins}.

(** C1, as amended. Every list that [FetchWorker.run] emits through
    [finished] is in non-increasing order of release date ([key_date]);
    among entries of one release date the media type does not increase,
    and among those of one media type the lower-cased title does not
    increase: [reverse=True] turns the whole key tuple around. *)
Theorem finished_sorted_reversed (net : network) (w : FetchWorker) (evs : list event)
    (items : list MediaItem) :
  In (finished items) (emitted (exec net evs (start w))) ->
  StronglySorted Spec.reversed_before items.
Proof.
  intros Hin. apply finished_collect in Hin as (anime & manga & _ & _ & ->).
  apply (StronglySorted_impl (descending sort_key)).
  - intros a b. apply descending_reversed.
  - apply sort_reverse_sorted.
Qed.

(** C2. The list that [run] emits holds every (media_type, id) pair of the
    concatenated fetch results exactly once: its keys are pairwise
    distinct and are the keys of the input. So two input items of one id
    and different media types are both represented, by different entries,
    and entries of one pair are one entry. *)
Theorem finished_each_pair_once (net : network) (w : FetchWorker) (evs : list event)
    (anime manga items : list MediaItem) :
  fetched net w "ANIME" = Ok anime ->
  fetched net w "MANGA" = Ok manga ->
  In (finished items) (emitted (exec net evs (start w))) ->
  NoDup (map item_key items) /\
  (forall k, In k (map item_key items) <-> In k (map item_key (anime ++ manga))) /\
  (forall a b, In a (anime ++ manga) -> In b (anime ++ manga) ->
     id a = id b -> media_type a <> media_type b ->
     exists a' b', In a' items /\ In b' items /\ a' <> b' /\
       item_key a' = item_key a /\ item_key b' = item_key b) /\
  (forall x y, In x items -> In y items -> item_key x = item_key y -> x = y).
Proof.
  intros Ha Hm Hin. apply finished_collect in Hin as (anime' & manga' & Ha' & Hm' & ->).
  rewrite Ha in Ha'. rewrite Hm in Hm'. injection Ha' as <-. injection Hm' as <-.
  destruct (dedup_once (anime ++ manga)) as [Hnd Hkeys].
  assert (Hperm : Permutation (map item_key (collect anime manga))
                              (map item_key (dedup (anime ++ manga))))
    by apply Permutation_map, collect_perm.
  assert (Hnd' : NoDup (map item_key (collect anime manga))) by now rewrite Hperm.
  assert (Hkeys' : forall k, In k (map item_key (collect anime manga)) <->
                             In k (map item_key (anime ++ manga))).
  { intros k. rewrite <- Hkeys. split; apply Permutation_in; [|symmetry]; exact Hperm. }
  repeat split; try assumption; try apply Hkeys'.
  - intros a b Hina Hinb Hid Hty.
    assert (Hka : In (item_key a) (map item_key (collect anime manga)))
      by (apply Hkeys', in_map, Hina).
    assert (Hkb : In (item_key b) (map item_key (collect anime manga)))
      by (apply Hkeys', in_map, Hinb).
    apply in_map_iff in Hka as (a' & Hka & Hina').
    apply in_map_iff in Hkb as (b' & Hkb & Hinb').
    exists a', b'. repeat split; try assumption.
    intros ->. rewrite Hka in Hkb. unfold item_key in Hkb. congruence.
  - intros x y Hx Hy Hxy.
    apply list_elem_of_In in Hx, Hy.
    apply list_elem_of_lookup in Hx as [i Hi]. apply list_elem_of_lookup in Hy as [j Hj].
    assert (i = j) as ->.
    { eapply NoDup_lookup; [exact Hnd'| |].
      - rewrite list_lookup_fmap, Hi. reflexivity.
      - rewrite list_lookup_fmap, Hj. simpl. now rewrite Hxy. }
    congruence.
Qed.

(** C9. A [MediaItem] without [start_date] has [key_date] 1900-01-01, and
    in every list that [run] emits an undated item stands after every item
    released later than 1900-01-01. *)
Theorem finished_undated_after_dated (net : network) (w : FetchWorker) (evs : list event)
    (items : list MediaItem) (undated dated : MediaItem) (released : date) :
  In (finished items) (emitted (exec net evs (start w))) ->
  In undated items -> In dated items ->
  start_date undated = None ->
  start_date dated = Some released -> cmp released (mkDate 1900 1 1) = Gt ->
  key_date undated = mkDate 1900 1 1 /\
  exists l1 l2 l3, items = l1 ++ dated :: l2 ++ undated :: l3.
Proof.
  intros Hin Hu Hd Hnone Hsome Hlater.
  assert (Hkey : key_date undated = mkDate 1900 1 1) by (unfold key_date; now rewrite Hnone).
  split; [assumption|].
  apply finished_collect in Hin as (anime & manga & _ & _ & ->).
  apply (sorted_greater_first sort_key); auto.
  - apply sort_reverse_sorted.
  - unfold sort_key, cmp, pair_cmp; simpl. rewrite Hkey.
    unfold key_date. rewrite Hsome. fold (cmp released (mkDate 1900 1 1)).
    now rewrite Hlater.
Qed.

(** C10. Of several fetched items with one (media_type, id) pair, the list
    that [run] emits holds the last in input order (anime first, then
    manga), and no other item with that pair. *)
Theorem finished_keeps_last (net : network) (w : FetchWorker) (evs : list event)
    (anime manga items : list MediaItem) (before : list MediaItem) (x : MediaItem)
    (after : list MediaItem) :
  fetched net w "ANIME" = Ok anime ->
  fetched net w "MANGA" = Ok manga ->
  In (finished items) (emitted (exec net evs (start w))) ->
  anime ++ manga = before ++ x :: after ->
  (forall y, In y after -> item_key y <> item_key x) ->
  In x items /\ forall y, In y items -> item_key y = item_key x -> y = x.
Proof.
  intros Ha Hm Hin Hsplit Hlast.
  apply finished_collect in Hin as (anime' & manga' & Ha' & Hm' & ->).
  rewrite Ha in Ha'. rewrite Hm in Hm'. injection Ha' as <-. injection Hm' as <-.
  destruct (dedup_last before x after Hlast) as [Hx Honly].
  rewrite <- Hsplit in Hx, Honly. split.
  - now apply collect_In.
  - intros y Hy. apply Honly. now apply collect_In.
Qed.

End Delivered.

Section OnExamples.
Import Examples.

(** C1 on the server [same_day]: the manga stands before the anime. *)
Lemma finished_sorted_reversed_witness :
  StronglySorted Spec.reversed_before [berserk; frieren].
Proof.
  apply (finished_sorted_reversed same_day january (repeat Step 6)).
  vm_compute. left. reflexivity.
Defined.

(** C1 as stated fails there: the two entries have one release date, and
    the list that [run] emits has MANGA before ANIME, which the stated
    order by media type excludes. *)
Lemma finished_order_not_as_stated :
  emitted (run same_day january) = [finished [berserk; frieren]] /\
  ~ Spec.stated_order [berserk; frieren].
Proof.
  split; [vm_compute; reflexivity|].
  intros Hs. inversion Hs as [|? ? _ Hall]; subst.
  inversion Hall as [|? ? [_ Hties] _]; subst.
  destruct (Hties eq_refl) as [Htype _]. apply Htype. reflexivity.
Qed.

(** C2 on the server [repeats]. *)
Lemma finished_each_pair_once_witness :
  NoDup (map item_key [frieren_tv; berserk]) /\
  (forall k, In k (map item_key [frieren_tv; berserk]) <->
             In k (map item_key ([frieren; frieren_tv] ++ [berserk]))) /\
  (forall a b, In a ([frieren; frieren_tv] ++ [berserk]) ->
     In b ([frieren; frieren_tv] ++ [berserk]) ->
     id a = id b -> media_type a <> media_type b ->
     exists a' b', In a' [frieren_tv; berserk] /\ In b' [frieren_tv; berserk] /\ a' <> b' /\
       item_key a' = item_key a /\ item_key b' = item_key b) /\
  (forall x y, In x [frieren_tv; berserk] -> In y [frieren_tv; berserk] ->
     item_key x = item_key y -> x = y).
Proof.
  apply (finished_each_pair_once repeats january (repeat Step 6)).
  - vm_compute. reflexivity.
  - vm_compute. reflexivity.
  - vm_compute. left. reflexivity.
Defined.

(** C9 on the server [partly_dated]. *)
Lemma finished_undated_after_dated_witness :
  key_date announced = mkDate 1900 1 1 /\
  exists l1 l2 l3, [frieren; announced] = l1 ++ frieren :: l2 ++ announced :: l3.
Proof.
  apply (finished_undated_after_dated partly_dated january (repeat Step 6)
           [frieren; announced] announced frieren (mkDate 2024 1 5)).
  - vm_compute. left. reflexivity.
  - simpl. tauto.
  - simpl. tauto.
  - reflexivity.
  - reflexivity.
  - reflexivity.
Defined.

(** C10 on the server [repeats]: the second listing of the anime stays. *)
Lemma finished_keeps_last_witness :
  In frieren_tv [frieren_tv; berserk] /\
  forall y, In y [frieren_tv; berserk] -> item_key y = item_key frieren_tv -> y = frieren_tv.
Proof.
  apply (finished_keeps_last repeats january (repeat Step 6)
           [frieren; frieren_tv] [berserk] [frieren_tv; berserk] [frieren] frieren_tv [berserk]).
  - vm_compute. reflexivity.
  - vm_compute. reflexivity.
  - vm_compute. left. reflexivity.
  - reflexivity.
  - intros y [<-|[]]. vm_compute. congruence.
Defined.

End OnExamples.

(** ** The mapping of API items *)

Section Mapping.
Context `{PyBuiltins}.

Lemma bind_Ok {A B} (f : A -> result B) (m : result A) (b : B) :
  (x ← m; f x) = Ok b -> exists a, m = Ok a /\ f a = Ok b.
Proof. destruct m as [a|e]; simpl; [eauto|discriminate]. Qed.

Lemma py_get_Ok (d : json) (k : string) (v : json) :
  py_get d k JNull = Ok v -> (exists kvs, d = JObj kvs) /\ v = Spec.field d k.
Proof. destruct d; simpl; try discriminate. intros [= <-]. eauto. Qed.

Lemma py_get_obj (kvs : list (string * json)) (k : string) (dflt : json) :
  py_get (JObj kvs) k dflt = Ok (default dflt (assoc k kvs)).
Proof. reflexivity. Qed.

(** What [map_item] puts into the fields that depend on the country code
    and on the start date. *)
Lemma map_item_inv (media_type : string) (m : json) (it : MediaItem) :
  map_item media_type m = Ok it ->
  let cc := py_or (Spec.field m "countryOfOrigin") (JStr "") in
  exists cl, country_language cc = Ok cl /\
    country_code it = py_str cc /\ country it = py_str (fst cl) /\
    language it = py_str (snd cl) /\
    start_date it = start_date_of (py_or (Spec.field m "startDate") (JObj [])).
Proof.
  unfold map_item. intros Hm.
  repeat (let a := fresh "v" in let E := fresh "E" in apply bind_Ok in Hm as (a & E & Hm)).
  injection Hm as <-. simpl.
  repeat match goal with
         | E : py_get m _ JNull = Ok _ |- _ => apply py_get_Ok in E as [_ ->]
         end.
  eauto 6.
Qed.

Lemma py_or_object (v : json) :
  Spec.null_or_object v = true -> exists kvs, py_or v (JObj []) = JObj kvs.
Proof. destruct v as [| | | | |[|kv kvs]]; try discriminate; simpl; eauto. Qed.

Lemma country_language_string (v : json) :
  Spec.null_or_string v = true -> exists cl, country_language (py_or v (JStr "")) = Ok cl.
Proof.
  destruct v as [| | |s| |]; try discriminate; intros _.
  - change (py_or JNull (JStr "")) with (JStr ""). unfold country_language.
    destruct (COUNTRY_MAP !! "") as [[c l]|]; eauto.
  - unfold py_or, truthy. destruct (negb (String.eqb s "")); unfold country_language;
      match goal with |- context [COUNTRY_MAP !! ?k] => destruct (COUNTRY_MAP !! k) as [[c l]|] end;
      eauto.
Qed.

Lemma py_int_int (v : json) :
  Spec.null_or_int v = true -> exists n, py_int (py_or v (JInt 0)) = Ok n.
Proof.
  destruct v as [| |n| | |]; try discriminate; intros _; unfold py_or; simpl; eauto.
  destruct (negb (n =? 0)); simpl; eauto.
Qed.

Lemma clean_text_string (v : json) :
  Spec.null_or_string v = true -> exists s, clean_text v = Ok s.
Proof.
  destruct v as [| | |s| |]; try discriminate; intros _; unfold clean_text; simpl; eauto.
  destruct (negb (negb (String.eqb s ""))); eauto.
Qed.

(** An item of the API's shape is mapped to a record, whatever its start
    date holds. *)
Lemma map_item_total (media_type : string) (m : json) :
  Spec.api_shaped m = true -> exists it, map_item media_type m = Ok it.
Proof.
  destruct m as [| | | | |kvs]; try discriminate.
  unfold Spec.api_shaped, Spec.field. rewrite !andb_true_iff.
  intros ((((Ht & Hc) & Hcc) & Hid) & Hd).
  apply py_or_object in Ht as [tb Ht]. apply py_or_object in Hc as [cv Hc].
  apply country_language_string in Hcc as [cl Hcc]. apply py_int_int in Hid as [n Hid].
  apply clean_text_string in Hd as [d Hd].
  unfold map_item. rewrite !py_get_obj. cbn [mbind result_bind].
  rewrite Ht, Hc, Hcc, Hid, Hd. rewrite !py_get_obj. cbn [mbind result_bind].
  destruct (truthy (default JNull (assoc "english" tb)));
    destruct (truthy (default JNull (assoc "large" cv))); cbn [mbind result_bind]; eauto.
Qed.

Lemma map_items_Forall2 (media_type : string) (media_list : list json) (out : list MediaItem) :
  map_items media_type media_list = Ok out ->
  Forall2 (fun m it => map_item media_type m = Ok it) media_list out.
Proof.
  revert out. induction media_list as [|m l IH]; simpl; intros out Hout.
  - injection Hout as <-. constructor.
  - apply bind_Ok in Hout as (it & Hit & Hout).
    apply bind_Ok in Hout as (rest & Hrest & Hout). injection Hout as <-.
    constructor; auto.
Qed.

Lemma field_py_or (sd : json) (k : string) :
  Spec.field (py_or sd (JObj [])) k = Spec.field sd k.
Proof.
  destruct sd as [|[|]|n|s|[|x l]|[|kv kvs]]; unfold py_or; simpl; try reflexivity.
  - now destruct (negb (n =? 0)).
  - now destruct (negb (String.eqb s "")).
Qed.

Lemma start_date_of_incomplete (m : json) :
  Spec.complete_date m = false ->
  start_date_of (py_or (Spec.field m "startDate") (JObj [])) = None.
Proof.
  unfold Spec.complete_date. cbv zeta.
  rewrite <- !(field_py_or (Spec.field m "startDate")).
  destruct (py_or (Spec.field m "startDate") (JObj [])) as [| | | | |kvs]; try reflexivity.
  unfold start_date_of, Spec.field. rewrite !py_get_obj. cbn [mbind result_bind].
  destruct (truthy (default JNull (assoc "year" kvs))); [|reflexivity].
  cbn [mbind result_bind].
  destruct (truthy (default JNull (assoc "month" kvs))); [|reflexivity].
  cbn [mbind result_bind].
  destruct (truthy (default JNull (assoc "day" kvs))); [|reflexivity].
  discriminate.
Qed.

(** C3. An API item whose [startDate] lacks a year, a month or a day (missing
    or falsy) is mapped by the loop of [fetch_new] to a record with
    [start_date] [None], whose [publication_day] is "Unknown": so is any
    record made of it, a record is made when the item has the API's shape,
    and in the list the loop returns the record stands at the item's
    place. *)
Theorem incomplete_date_unknown (media_type : string) (m : json) :
  Spec.complete_date m = false ->
  (forall it, map_item media_type m = Ok it ->
     start_date it = None /\ publication_day it = "Unknown") /\
  (Spec.api_shaped m = true ->
     exists it, map_item media_type m = Ok it /\
       start_date it = None /\ publication_day it = "Unknown") /\
  (forall before after out, map_items media_type (before ++ m :: after) = Ok out ->
     exists it, out !! length before = Some it /\
       start_date it = None /\ publication_day it = "Unknown").
Proof.
  intros Hinc.
  assert (Hone : forall it, map_item media_type m = Ok it ->
                   start_date it = None /\ publication_day it = "Unknown").
  { intros it Hit. apply map_item_inv in Hit as (cl & _ & _ & _ & _ & Hsd).
    rewrite start_date_of_incomplete in Hsd by assumption.
    unfold publication_day. now rewrite Hsd. }
  split; [exact Hone|]. split.
  - intros Hshape. destruct (map_item_total media_type m Hshape) as [it Hit].
    exists it. split; [assumption|]. now apply Hone.
  - intros before after out Hout. apply map_items_Forall2 in Hout.
    apply Forall2_app_inv_l in Hout as (o1 & o2 & Hbefore & Hrest & ->).
    inversion Hrest as [|? it ? o2' Hit _]; subst.
    exists it. split; [|now apply Hone].
    apply list_lookup_middle. exact (Forall2_length _ _ _ Hbefore).
Qed.

(** C4, as amended. For an API item whose [countryOfOrigin] is a string
    that is not a key of [COUNTRY_MAP], the lookup does not raise and the
    record gets (country, language) = (the code, "Unknown") when the code
    is not empty and ("Unknown", "Unknown") when it is; an item of the
    API's shape is mapped to a record. *)
Theorem unlisted_country_fallback (media_type : string) (m : json) (code : string) :
  Spec.field m "countryOfOrigin" = JStr code ->
  COUNTRY_MAP !! code = None ->
  let shown := if String.eqb code "" then "Unknown" else code in
  country_language (py_or (JStr code) (JStr "")) = Ok (JStr shown, JStr "Unknown") /\
  (forall it, map_item media_type m = Ok it ->
     country_code it = code /\ (country it, language it) = (shown, "Unknown")) /\
  (Spec.api_shaped m = true -> exists it, map_item media_type m = Ok it).
Proof.
  intros Hcc Hnone shown.
  assert (Hcl : country_language (py_or (JStr code) (JStr "")) = Ok (JStr shown, JStr "Unknown")).
  { unfold py_or, truthy, shown.
    destruct (String.eqb_spec code "") as [->|Hne]; cbn [negb];
      unfold country_language; rewrite Hnone; [reflexivity|].
    unfold py_or, truthy. destruct (String.eqb_spec code ""); [contradiction|reflexivity]. }
  split; [exact Hcl|]. split; [|apply map_item_total].
  intros it Hit. apply map_item_inv in Hit as (cl & Hcl' & Hcode & Hcountry & Hlang & _).
  rewrite Hcc in Hcl', Hcode. rewrite Hcl in Hcl'. injection Hcl' as <-.
  simpl in Hcountry, Hlang. rewrite Hcountry, Hlang. split; [|reflexivity].
  rewrite Hcode. unfold py_or. simpl. now destruct (String.eqb_spec code "") as [->|].
Qed.

(** C6. [fetch_new] posts one request, to the fixed endpoint, whose
    variables are the media type, the two date bounds as the integers
    year*10000 + month*100 + day of [date_from] and [date_to], and the page
    size; its outcome is what it reads of the answer to that request. *)
Theorem fetch_new_posts_date_bounds (net : network) (self : AniListClient)
    (media_type : string) (date_from date_to : date) (per_page : Z) :
  let req := {| url := ANILIST_GQL;
                headers := session_headers self;
                body := {| query := QUERY;
                           vars := {| var_type := media_type;
                                      startGreater := yyyymmdd_int date_from;
                                      startLesser := yyyymmdd_int date_to;
                                      perPage := per_page |} |};
                req_timeout := timeout self |} in
  fetch_new net self media_type date_from date_to per_page
    = ([req], r ← net req; read_response media_type r) /\
  yyyymmdd_int date_from = year date_from * 10000 + month date_from * 100 + day date_from /\
  yyyymmdd_int date_to = year date_to * 10000 + month date_to * 100 + day date_to.
Proof. repeat split. Qed.

End Mapping.

(** ** Failures and aborts *)

Section Failure.
Context `{PyBuiltins}.

Lemma read_response_not_200 (media_type : string) (r : response) :
  status_code r <> 200 -> exists msg, read_response media_type r = Raise (RuntimeError msg).
Proof.
  intros Hne. unfold read_response.
  destruct (Z.eqb_spec (status_code r) 200); [contradiction|]. cbn [negb]. eauto.
Qed.

Lemma read_response_errors (media_type : string) (r : response) (data : json) :
  status_code r = 200 -> json_of r = Ok data ->
  truthy (Spec.field data "errors") = true ->
  exists msg, read_response media_type r = Raise (RuntimeError msg).
Proof.
  intros H200 Hdata Herr. unfold read_response. rewrite H200, Hdata.
  cbn [Z.eqb Pos.eqb negb mbind result_bind].
  destruct data as [| | | | |kvs]; try discriminate.
  rewrite (py_get_obj kvs "errors"). cbn [mbind result_bind].
  unfold Spec.field in Herr. rewrite Herr. eauto.
Qed.

Lemma step_returned (net : network) (st : state) :
  at_pos st = Returned -> step net st = st.
Proof. unfold step. now intros ->. Qed.

Lemma exec_returned (net : network) (evs : list event) (st : state) :
  at_pos st = Returned -> emitted (exec net evs st) = emitted st.
Proof.
  revert st. induction evs as [|[|] evs IH]; simpl; intros st Hat; [reflexivity| |].
  - rewrite step_returned by assumption. now apply IH.
  - now rewrite IH.
Qed.

(** What [run] emits when no [abort] comes. *)
Lemma run_emitted (net : network) (w : FetchWorker) :
  _abort w = false ->
  emitted (run net w) =
  match fetched net w "ANIME" with
  | Raise e => [error (str_exn e)]
  | Ok anime =>
      match fetched net w "MANGA" with
      | Raise e => [error (str_exn e)]
      | Ok manga => [finished (collect anime manga)]
      end
  end.
Proof.
  destruct w as [df dt flag]. cbn [_abort]. intros ->.
  unfold run, exec. cbn [repeat fold_left fire].
  cbn [step at_pos goto start self _abort].
  rewrite try_fetch_eq. cbv zeta. cbn [self date_from date_to at_pos posted emitted].
  destruct (fetched net _ "ANIME") as [anime|e].
  - cbn [step at_pos goto start self _abort].
    rewrite try_fetch_eq. cbv zeta. cbn [self date_from date_to at_pos posted emitted].
    destruct (fetched net _ "MANGA") as [manga|e].
    + cbn [step at_pos goto start self _abort emit emitted]. reflexivity.
    + cbn [step at_pos goto start self _abort emit emitted]. reflexivity.
  - cbn [step at_pos goto start self _abort emit emitted]. reflexivity.
Qed.

(** C5, as amended. [fetch_new] raises a [RuntimeError] with one message
    whenever the response status is not 200, and whenever the decoded
    response holds a non-empty [errors]; and when a fetch raises, for
    whatever reason, [run] emits the message of that exception through
    [error] and nothing else: no list is delivered, under any schedule. *)
Theorem fetch_failure_surfaces (net : network) (w : FetchWorker) (e : exn) :
  (forall self media_type date_from date_to per_page r,
     net (fetch_request self media_type date_from date_to per_page) = Ok r ->
     status_code r <> 200 \/
       (exists data, json_of r = Ok data /\ truthy (Spec.field data "errors") = true) ->
     exists msg,
       snd (fetch_new net self media_type date_from date_to per_page) = Raise (RuntimeError msg)) /\
  (fetched net w "ANIME" = Raise e \/
     (exists anime, fetched net w "ANIME" = Ok anime /\ fetched net w "MANGA" = Raise e) ->
   (forall evs, emitted (exec net evs (start w)) = [] \/
                emitted (exec net evs (start w)) = [error (str_exn e)]) /\
   (_abort w = false -> emitted (run net w) = [error (str_exn e)])).
Proof.
  split; [|intros Hfail; split].
  - intros self mt df dt pp r Hr Hbad. unfold fetch_new. cbn [snd]. rewrite Hr.
    cbn [mbind result_bind].
    destruct (Z.eq_dec (status_code r) 200) as [H200|Hne].
    + destruct Hbad as [Hne|(data & Hdata & Herr)]; [contradiction|].
      now apply (read_response_errors mt r data).
    + now apply read_response_not_200.
  - intros evs. destruct (emitted_explained net w evs) as [Hem|(sig & Hem & Hsig)]; [now left|].
    right. rewrite Hem. destruct sig as [items|msg]; simpl in Hsig.
    + destruct Hsig as (anime & manga & Ha & Hm & _).
      destruct Hfail as [Hf|(anime' & _ & Hf)]; congruence.
    + destruct Hsig as (e' & -> & Hsig).
      destruct Hfail as [Hf|(anime & Ha & Hf)], Hsig as [Hf'|(anime' & Ha' & Hf')]; congruence.
  - intros Hflag. rewrite run_emitted by assumption.
    destruct Hfail as [Hf|(anime & Ha & Hf)]; [now rewrite Hf|now rewrite Ha, Hf].
Qed.

Lemma try_fetch_cases (net : network) (client : AniListClient) (media_type : string)
    (k : list MediaItem -> position) (st : state) :
  (exists reqs items, try_fetch net client media_type k st
     = mkState (self st) (k items) (posted st ++ reqs) (emitted st)) \/
  (exists reqs e, try_fetch net client media_type k st
     = mkState (self st) Returned (posted st ++ reqs) (emitted st ++ [error (str_exn e)])).
Proof.
  unfold try_fetch.
  destruct (fetch_new net client media_type (date_from (self st)) (date_to (self st)) 40)
    as [reqs [items|e]]; [left|right]; eauto.
Qed.

Lemma step_self (net : network) (st : state) : self (step net st) = self st.
Proof.
  unfold step. destruct (at_pos st) as [|c|c anime|c anime|anime manga|anime manga|].
  - now destruct (_abort (self st)).
  - destruct (try_fetch_cases net c "ANIME" (Check2 c) st) as [(r & i & ->)|(r & e & ->)];
      reflexivity.
  - now destruct (_abort (self st)).
  - destruct (try_fetch_cases net c "MANGA" (Check3 anime) st) as [(r & i & ->)|(r & e & ->)];
      reflexivity.
  - now destruct (_abort (self st)).
  - reflexivity.
  - reflexivity.
Qed.

Lemma quiet_fetch (net : network) (client : AniListClient) (media_type : string)
    (k : list MediaItem -> position) (st : state) :
  (forall items, past_checkpoints (k items) = false) ->
  (forall items, ~ In (finished items) (emitted st)) ->
  past_checkpoints (at_pos (try_fetch net client media_type k st)) = false /\
  (forall items, ~ In (finished items) (emitted (try_fetch net client media_type k st))).
Proof.
  intros Hk Hquiet.
  destruct (try_fetch_cases net client media_type k st) as [(r & i & ->)|(r & e & ->)];
    cbn [at_pos emitted]; split; auto.
  intros items Hin. apply in_app_or in Hin as [Hin|[Hin|[]]];
    [now apply (Hquiet items)|discriminate].
Qed.

Lemma quiet_step (net : network) (st : state) :
  _abort (self st) = true -> past_checkpoints (at_pos st) = false ->
  (forall items, ~ In (finished items) (emitted st)) ->
  past_checkpoints (at_pos (step net st)) = false /\
  (forall items, ~ In (finished items) (emitted (step net st))).
Proof.
  intros Hflag Hpos Hquiet. unfold step.
  destruct (at_pos st) as [|c|c anime|c anime|anime manga|anime manga|] eqn:Hat;
    try discriminate; try rewrite Hflag; try (split; [reflexivity|exact Hquiet]).
  - now apply quiet_fetch.
  - now apply quiet_fetch.
  - rewrite Hat. auto.
Qed.

(** C8, as amended. Once [abort] has set the flag, a checkpoint of [run]
    that is reached makes [run] return without emitting anything; so a
    fetch that is aborted before it has passed its last checkpoint never
    delivers its list, whatever happens afterwards. (An abort that comes
    after the last checkpoint does not stop the emission.) *)
Theorem aborted_run_stays_silent (net : network) (st : state) :
  _abort (self st) = true ->
  (at_checkpoint (at_pos st) = true -> step net st = goto st Returned) /\
  (past_checkpoints (at_pos st) = false ->
   (forall items, ~ In (finished items) (emitted st)) ->
   forall evs items, ~ In (finished items) (emitted (exec net evs st))).
Proof.
  intros Hflag. split.
  - unfold step. destruct (at_pos st); try discriminate; now rewrite Hflag.
  - intros Hpos Hquiet evs. revert st Hflag Hpos Hquiet.
    induction evs as [|[|] evs IH]; simpl; intros st Hflag Hpos Hquiet; [exact Hquiet| |].
    + destruct (quiet_step net st Hflag Hpos Hquiet) as [Hpos' Hquiet'].
      apply IH; try assumption. now rewrite step_self.
    + apply IH; auto.
Qed.

End Failure.

Section OnMoreExamples.
Import Examples.

(** C3 on an item that has a year and neither month nor day. *)
Lemma incomplete_date_unknown_witness :
  start_date announced = None /\ publication_day announced = "Unknown".
Proof.
  destruct (incomplete_date_unknown "ANIME" (api_undated 7 "ANIME" "Announced"))
    as (Hone & _ & _); [reflexivity|].
  apply Hone. vm_compute. reflexivity.
Defined.

(** C4 on the code "XX". *)
Lemma unlisted_country_fallback_witness :
  country_language (py_or (JStr "XX") (JStr "")) = Ok (JStr "XX", JStr "Unknown") /\
  exists it, map_item "MANGA" (JObj [("countryOfOrigin", JStr "XX")]) = Ok it /\
    country_code it = "XX" /\ (country it, language it) = ("XX", "Unknown").
Proof.
  destruct (unlisted_country_fallback "MANGA" (JObj [("countryOfOrigin", JStr "XX")]) "XX")
    as (Hlookup & Hany & Hsome); [reflexivity|vm_compute; reflexivity|].
  split; [exact Hlookup|].
  destruct Hsome as [it Hit]; [reflexivity|].
  exists it. split; [exact Hit|]. now apply Hany.
Defined.

(** C4 as stated fails on the empty code: it is no key of [COUNTRY_MAP],
    and the record shows the country "Unknown", not the code. *)
Lemma empty_country_code_not_kept :
  COUNTRY_MAP !! "" = None /\
  exists it, map_item "MANGA" (JObj [("countryOfOrigin", JStr "")]) = Ok it /\
    country_code it = "" /\ (country it, language it) <> ("", "Unknown").
Proof.
  split; [vm_compute; reflexivity|].
  eexists. split; [vm_compute; reflexivity|]. split; [reflexivity|]. discriminate.
Qed.

(** C5 on a server that answers 503. *)
Lemma fetch_failure_surfaces_witness :
  (exists msg, snd (fetch_new unavailable (new_client 25) "ANIME"
                      (mkDate 2024 1 1) (mkDate 2024 1 31) 40) = Raise (RuntimeError msg)) /\
  emitted (run unavailable january)
    = [error ("HTTP 503" +:+ nl +:+ nl +:+ "Service Unavailable")].
Proof.
  destruct (fetch_failure_surfaces unavailable january
              (RuntimeError ("HTTP 503" +:+ nl +:+ nl +:+ "Service Unavailable")))
    as (Hraise & Hfail).
  destruct Hfail as (_ & Hrun); [left; vm_compute; reflexivity|].
  split.
  - apply (Hraise (new_client 25) "ANIME" (mkDate 2024 1 1) (mkDate 2024 1 31) 40
             (mkResponse 503 "Service Unavailable" (Raise (JSONDecodeError "Expecting value")))).
    + reflexivity.
    + left. discriminate.
  - apply Hrun. reflexivity.
Defined.

(** C5 as stated fails in its "only if": the answer has status 200 and no
    [errors], and [fetch_new] raises all the same, because [Page] is null. *)
Lemma null_page_raises_on_200 :
  exists r data,
    null_page (fetch_request (new_client 25) "ANIME" (mkDate 2024 1 1) (mkDate 2024 1 31) 40)
      = Ok r /\
    status_code r = 200 /\ json_of r = Ok data /\
    truthy (Spec.field data "errors") = false /\
    snd (fetch_new null_page (new_client 25) "ANIME" (mkDate 2024 1 1) (mkDate 2024 1 31) 40)
      = Raise (AttributeError "'NoneType' object has no attribute 'get'").
Proof.
  eexists. eexists. split; [reflexivity|]. split; [reflexivity|]. split; [reflexivity|].
  split; [reflexivity|]. vm_compute. reflexivity.
Qed.

(** C8 on a worker aborted before its first checkpoint. *)
Lemma aborted_run_stays_silent_witness :
  step same_day (abort (start january)) = goto (abort (start january)) Returned /\
  forall evs items, ~ In (finished items) (emitted (exec same_day evs (abort (start january)))).
Proof.
  destruct (aborted_run_stays_silent same_day (abort (start january))) as [Hcheck Hquiet];
    [reflexivity|].
  split.
  - apply Hcheck. reflexivity.
  - apply Hquiet; [reflexivity|]. intros items [].
Defined.

(** C8 as stated fails for an abort that comes after the last checkpoint:
    five steps take [run] past it, [abort] sets the flag while nothing has
    been emitted, and the next step emits the list. *)
Lemma late_abort_still_delivers :
  let aborted := exec same_day (repeat Step 5 ++ [Abort]) (start january) in
  _abort (self aborted) = true /\ emitted aborted = [] /\
  emitted (exec same_day [Step] aborted) = [finished [berserk; frieren]].
Proof. vm_compute. repeat split. Qed.

End OnMoreExamples.

(** ** The image cache *)

Section CacheFacts.
Import Cache.
Context {pixmap : Type}.
Implicit Types (s self : ImageCache pixmap) (url u : string).

Lemma skips_spec self url :
  skips self url = true <->
  url = "" \/ is_Some (_cache self !! url) \/ is_Some (_pending self !! url).
Proof.
  unfold skips. rewrite !orb_true_iff, !bool_decide_eq_true.
  destruct (String.eqb_spec url ""); intuition congruence.
Qed.

Lemma request_skipped self url : skips self url = true -> request self url = self.
Proof. unfold request. now intros ->. Qed.

Lemma request_issued self url :
  skips self url = false ->
  request self url = mkCache (_cache self) (<[url := ()]> (_pending self))
                             (in_flight self ++ [url]) (image_ready self).
Proof. unfold request. now intros ->. Qed.

Lemma request_twice self url : request (request self url) url = request self url.
Proof.
  destruct (skips self url) eqn:E.
  - now rewrite !(request_skipped self url E).
  - rewrite (request_issued self url E). apply request_skipped, skips_spec.
    right. right. cbn [_pending]. rewrite lookup_insert_eq. eauto.
Qed.

Lemma remove_first_In url u (l : list string) :
  NoDup l -> In u (remove_first url l) <-> u <> url /\ In u l.
Proof.
  induction 1 as [|x l Hx Hl IH]; simpl; [tauto|].
  rewrite list_elem_of_In in Hx.
  destruct (String.eqb_spec url x) as [->|Hne].
  - split.
    + intros Hu. split; [|now right]. congruence.
    + intros [Hne [Heq|Hu]]; [congruence|assumption].
  - simpl. rewrite IH. intuition congruence.
Qed.

Lemma remove_first_NoDup url (l : list string) : NoDup l -> NoDup (remove_first url l).
Proof.
  induction 1 as [|x l Hx Hl IH]; simpl; [constructor|].
  destruct (String.eqb_spec url x) as [->|Hne]; [assumption|].
  constructor; [|assumption].
  rewrite list_elem_of_In, remove_first_In by assumption.
  rewrite list_elem_of_In in Hx. tauto.
Qed.

(** The downloads in flight are those recorded in [_pending], each once. *)
Abbreviation tracked s :=
  (NoDup (in_flight s) /\ forall u, In u (in_flight s) <-> is_Some (_pending s !! u)).

Lemma tracked_new : tracked (@new_cache pixmap).
Proof.
  split; [constructor|]. intros u. cbn. rewrite lookup_empty.
  split; [tauto|]. intros [? [=]].
Qed.

Lemma tracked_request s url : tracked s -> tracked (request s url).
Proof.
  intros [Hnd Hin]. destruct (skips s url) eqn:E.
  - now rewrite request_skipped.
  - rewrite request_issued by assumption. cbn [in_flight _pending].
    assert (Hfresh : ~ is_Some (_pending s !! url)).
    { intros Hp. assert (skips s url = true) by (apply skips_spec; auto). congruence. }
    split.
    + apply NoDup_app. split; [assumption|]. split; [|apply NoDup_singleton].
      intros x Hx Hx'. apply list_elem_of_singleton in Hx'. subst x.
      apply Hfresh, Hin, list_elem_of_In, Hx.
    + intros u. rewrite in_app_iff, Hin. simpl.
      destruct (decide (url = u)) as [->|Hne].
      * rewrite lookup_insert_eq. split; eauto.
      * rewrite lookup_insert_ne by assumption. intuition.
Qed.

Lemma tracked_complete s url (r : reply pixmap) :
  In url (in_flight s) -> tracked s -> tracked (complete s url r).
Proof.
  intros Hurl [Hnd Hin]. apply Hin in Hurl as [rep Hrep].
  unfold complete, _on_finished. cbn [_pending _cache in_flight image_ready]. rewrite Hrep.
  assert (Hgoal : NoDup (remove_first url (in_flight s)) /\
                  forall u, In u (remove_first url (in_flight s)) <->
                            is_Some (delete url (_pending s) !! u)).
  { split; [now apply remove_first_NoDup|].
    intros u. rewrite remove_first_In, Hin by assumption.
    destruct (decide (url = u)) as [->|Hne].
    - rewrite lookup_delete_eq. split; [tauto|]. intros [? [=]].
    - rewrite lookup_delete_ne by assumption. intuition. }
  destruct (if no_error r then decoded r else None); exact Hgoal.
Qed.

Lemma reachable_tracked s : reachable s -> tracked s.
Proof.
  induction 1 as [|s s' Hs IH Hstep]; [apply tracked_new|].
  destruct Hstep as [self url|self url r Hurl].
  - now apply tracked_request.
  - now apply tracked_complete.
Qed.

(** C7. [request] does nothing when the URL is empty, cached or pending: it
    returns the object as it was, with no download added; a second
    [request] for a URL changes nothing; and in every state the cache can
    reach, the downloads in flight are pairwise distinct URLs, those of
    [_pending]: at most one per URL. *)
Theorem request_idempotent :
  (forall self url,
     url = "" \/ is_Some (_cache self !! url) \/ is_Some (_pending self !! url) ->
     request self url = self) /\
  (forall self url, request (request self url) url = request self url) /\
  (forall s, reachable s ->
     NoDup (in_flight s) /\ forall u, In u (in_flight s) <-> is_Some (_pending s !! u)).
Proof.
  split; [|split].
  - intros self url Hskip. now apply request_skipped, skips_spec.
  - apply request_twice.
  - apply reachable_tracked.
Qed.

End CacheFacts.

(** C7 on a cache that holds a request for one cover image. *)
Lemma request_idempotent_witness :
  let cover := "https://img.anili.st/cover/100.png" in
  let s := Cache.request (@Cache.new_cache unit) cover in
  Cache.request s cover = s /\ Cache.in_flight s = [cover] /\ NoDup (Cache.in_flight s).
Proof.
  intros cover s.
  destruct (@request_idempotent unit) as (Hskip & _ & Hreach).
  split; [|split].
  - apply Hskip. right. right. unfold s, Cache.request. vm_compute. eauto.
  - reflexivity.
  - apply Hreach. unfold s. eapply Cache.reach_step; [apply Cache.reach_new|].
    apply Cache.step_request.
Defined.

(** * Further properties *)

(** ** Dates *)

Section Dates.

Lemma days_in_month_le (y m : Z) : 28 <= days_in_month y m <= 31.
Proof.
  unfold days_in_month.
  repeat match goal with |- context [if ?b then _ else _] => destruct b end; lia.
Qed.

Lemma is_date_bounds (d : date) :
  Shape.is_date d ->
  1 <= year d <= 9999 /\ 1 <= month d <= 12 /\ 1 <= day d <= 31.
Proof.
  unfold Shape.is_date, date_new.
  destruct (_ && _) eqn:E; [|discriminate]. intros _.
  rewrite !andb_true_iff, !Z.leb_le in E.
  pose proof (days_in_month_le (year d) (month d)). lia.
Qed.

Lemma date_new_is_date (y m d : Z) (dt : date) :
  date_new y m d = Some dt -> Shape.is_date dt.
Proof.
  unfold Shape.is_date, date_new.
  destruct (_ && _) eqn:E; [|discriminate]. intros [= <-].
  cbn [year month day]. now rewrite E.
Qed.

Lemma digit_app (a : Z) (s : string) :
  digit a +:+ s = String (ascii_of_N (48 + Z.to_N (a mod 10))) s.
Proof. reflexivity. Qed.

Lemma digit_ascii_inj (a b : Z) :
  ascii_of_N (48 + Z.to_N (a mod 10)) = ascii_of_N (48 + Z.to_N (b mod 10)) ->
  a mod 10 = b mod 10.
Proof.
  intros Heq. apply (f_equal N_of_ascii) in Heq.
  pose proof (Z.mod_pos_bound a 10 ltac:(lia)). pose proof (Z.mod_pos_bound b 10 ltac:(lia)).
  rewrite !N_ascii_embedding in Heq by lia. lia.
Qed.

Lemma four_digits (y y' : Z) :
  0 <= y <= 9999 -> 0 <= y' <= 9999 ->
  (y / 1000) mod 10 = (y' / 1000) mod 10 -> (y / 100) mod 10 = (y' / 100) mod 10 ->
  (y / 10) mod 10 = (y' / 10) mod 10 -> y mod 10 = y' mod 10 -> y = y'.
Proof. intros. Z.to_euclidean_division_equations. lia. Qed.

Lemma isoformat_inj (a b : date) :
  Shape.is_date a -> Shape.is_date b -> isoformat a = isoformat b -> a = b.
Proof.
  intros Ha Hb. apply is_date_bounds in Ha, Hb.
  destruct a as [y m d], b as [y' m' d']. cbn [year month day] in *.
  unfold isoformat. cbn [year month day]. rewrite !digit_app. unfold digit.
  change ("-" +:+ ?s) with (String "-" s).
  intros [= Hy1 Hy2 Hy3 Hy4 Hm1 Hm2 Hd1 Hd2].
  apply digit_ascii_inj in Hy1, Hy2, Hy3, Hy4, Hm1, Hm2, Hd1, Hd2.
  f_equal.
  - apply four_digits; auto; lia.
  - Z.to_euclidean_division_equations. lia.
  - Z.to_euclidean_division_equations. lia.
Qed.

Lemma isoformat_not_Unknown (d : date) : isoformat d <> "Unknown".
Proof.
  intros Heq. apply (f_equal String.length) in Heq. discriminate Heq.
Qed.

Lemma yyyymmdd_int_compare (a b : date) :
  Shape.is_date a -> Shape.is_date b ->
  Z.compare (yyyymmdd_int a) (yyyymmdd_int b) = cmp a b.
Proof.
  intros Ha Hb. apply is_date_bounds in Ha, Hb. unfold yyyymmdd_int.
  unfold cmp at 1, date_cmp. unfold cmp, Z_cmp.
  destruct (Z.compare_spec (year a) (year b)) as [Hy|Hy|Hy]; cbn [lex];
    [|apply Z.compare_lt_iff; lia|apply Z.compare_gt_iff; lia].
  destruct (Z.compare_spec (month a) (month b)) as [Hm|Hm|Hm]; cbn [lex];
    [|apply Z.compare_lt_iff; lia|apply Z.compare_gt_iff; lia].
  destruct (Z.compare_spec (day a) (day b)) as [Hd|Hd|Hd];
    [apply Z.compare_eq_iff; lia|apply Z.compare_lt_iff; lia|apply Z.compare_gt_iff; lia].
Qed.

(** X1. On dates, the integer that [yyyymmdd_int] (and the same formula in
    [fetch_new]) computes compares as the dates do: the encoding keeps the
    order, and so it is injective. *)
Theorem yyyymmdd_int_order (a b : date) :
  Shape.is_date a -> Shape.is_date b ->
  Z.compare (yyyymmdd_int a) (yyyymmdd_int b) = cmp a b /\
  (yyyymmdd_int a = yyyymmdd_int b -> a = b).
Proof.
  intros Ha Hb. split; [now apply yyyymmdd_int_compare|].
  intros Heq. apply cmp_eq_iff. rewrite <- yyyymmdd_int_compare by assumption.
  now apply Z.compare_eq_iff.
Qed.

(** X2. [publication_day] tells the release dates apart: two records of
    which every date is one [dt.date] can hold show the same text only if
    they have the same [start_date]; in particular "Unknown" is shown for
    the undated ones only. *)
Theorem publication_day_inj (a b : MediaItem) :
  (forall d, start_date a = Some d -> Shape.is_date d) ->
  (forall d, start_date b = Some d -> Shape.is_date d) ->
  publication_day a = publication_day b -> start_date a = start_date b.
Proof.
  unfold publication_day. intros Ha Hb.
  destruct (start_date a) as [da|], (start_date b) as [db|]; intros Heq.
  - f_equal. apply isoformat_inj; auto.
  - now apply isoformat_not_Unknown in Heq.
  - symmetry in Heq. now apply isoformat_not_Unknown in Heq.
  - reflexivity.
Qed.

End Dates.

(** ** More on the mapping of API items *)

Section MoreMapping.
Context `{PyBuiltins}.

Lemma is_object_inv (v : json) : Shape.is_object v = true -> exists kvs, v = JObj kvs.
Proof. destruct v; try discriminate. eauto. Qed.

Lemma country_language_hashable (cc : json) :
  Shape.hashable cc = true <-> exists cl, country_language cc = Ok cl.
Proof.
  unfold country_language.
  destruct cc as [| | |s| |]; cbn [Shape.hashable].
  1-3: split; [intros _; eexists; reflexivity | reflexivity].
  2-3: split; [discriminate | intros [cl Hcl]; discriminate].
  destruct (COUNTRY_MAP !! s) as [[c l]|]; (split; [intros _; eexists; reflexivity | reflexivity]).
Qed.

Lemma clean_text_ok (d : json) :
  Shape.falsy_or_string d = true <-> exists s, clean_text d = Ok s.
Proof.
  unfold Shape.falsy_or_string, clean_text. destruct (truthy d) eqn:Ht; cbn [negb orb].
  - destruct d; (split; [try discriminate; intros _; eexists; reflexivity
                         | try reflexivity; intros [s Hs]; discriminate]).
  - split; [intros _; eexists; reflexivity | reflexivity].
Qed.

Lemma int_ok_spec (v : json) : Shape.int_ok v = true <-> exists n, py_int v = Ok n.
Proof.
  unfold Shape.int_ok. destruct (py_int v) as [n|e].
  - split; [intros _; eexists; reflexivity | reflexivity].
  - split; [discriminate | intros [n Hn]; discriminate].
Qed.

Lemma map_item_mappable (media_type : string) (m : json) :
  (exists it, map_item media_type m = Ok it) <-> Shape.mappable m = true.
Proof.
  unfold Shape.mappable. rewrite !andb_true_iff. split.
  - intros [it Hm]. unfold map_item in Hm.
    repeat (let a := fresh "v" in let E := fresh "E" in apply bind_Ok in Hm as (a & E & Hm)).
    apply py_get_Ok in E as [[kvs ->] ->].
    repeat match goal with
           | E : py_get (JObj kvs) _ JNull = Ok _ |- _ => apply py_get_Ok in E as [_ ->]
           end.
    apply py_get_Ok in E0 as [[tb Htb] _]. apply py_get_Ok in E4 as [[cv Hcv] _].
    rewrite Htb, Hcv. repeat split.
    + apply country_language_hashable. eauto.
    + apply int_ok_spec. eauto.
    + apply clean_text_ok. eauto.
  - intros (((((Hm & Ht) & Hc) & Hcc) & Hid) & Hd).
    apply is_object_inv in Hm as [kvs ->].
    apply is_object_inv in Ht as [tb Ht]. apply is_object_inv in Hc as [cv Hc].
    apply country_language_hashable in Hcc as [cl Hcc]. apply int_ok_spec in Hid as [n Hid].
    apply clean_text_ok in Hd as [d Hd].
    unfold Spec.field in *.
    unfold map_item. rewrite !py_get_obj. cbn [mbind result_bind].
    rewrite Ht, Hc, Hcc, Hid, Hd. rewrite !py_get_obj. cbn [mbind result_bind].
    destruct (truthy (default JNull (assoc "english" tb)));
      destruct (truthy (default JNull (assoc "large" cv))); cbn [mbind result_bind]; eauto.
Qed.

(** X3. The loop of [fetch_new] maps an item to a record exactly when the
    item is an object, its title and cover are objects or falsy, its
    country code can be hashed, [int] accepts its id and its description
    is a string or falsy; in every other case it raises. The start date
    and the fields that only pass through [str] never make it raise. *)
Theorem map_item_returns_iff (media_type : string) (m : json) :
  ((exists it, map_item media_type m = Ok it) <-> Shape.mappable m = true) /\
  (raises (map_item media_type m) <-> Shape.mappable m = false).
Proof.
  split; [apply map_item_mappable|].
  rewrite <- not_true_iff_false, <- (map_item_mappable media_type). unfold raises.
  destruct (map_item media_type m) as [it|e].
  - split; [intros [e [=]]|]. intros Hno. exfalso. apply Hno. eauto.
  - split; [intros _ [it [=]]|]. eauto.
Qed.

(** Every field of the record that [map_item] returns. *)
Lemma map_item_fields (media_type : string) (m : json) (it : MediaItem) :
  map_item media_type m = Ok it ->
  exists tb cv cl n d,
    py_or (Spec.field m "title") (JObj []) = JObj tb /\
    py_or (Spec.field m "coverImage") (JObj []) = JObj cv /\
    country_language (py_or (Spec.field m "countryOfOrigin") (JStr "")) = Ok cl /\
    py_int (py_or (Spec.field m "id") (JInt 0)) = Ok n /\
    clean_text (Spec.field m "description") = Ok d /\
    it = {| id := n;
            media_type := py_str (py_or (Spec.field m "type") (JStr media_type));
            title := py_str (py_or (Spec.field (JObj tb) "english")
                               (py_or (Spec.field (JObj tb) "romaji") (JStr "Untitled")));
            title_native := py_str (py_or (Spec.field (JObj tb) "native") (JStr ""));
            image_url := py_str (py_or (Spec.field (JObj cv) "large")
                                   (py_or (Spec.field (JObj cv) "medium") (JStr "")));
            country_code := py_str (py_or (Spec.field m "countryOfOrigin") (JStr ""));
            country := py_str (fst cl);
            language := py_str (snd cl);
            start_date := start_date_of (py_or (Spec.field m "startDate") (JObj []));
            format := py_str (py_or (Spec.field m "format") (JStr "Unknown"));
            status := py_str (py_or (Spec.field m "status") (JStr "Unknown"));
            description := d;
            site_url := py_str (py_or (Spec.field m "siteUrl") (JStr "")) |}.
Proof.
  unfold map_item. intros Hm.
  repeat (let a := fresh "v" in let E := fresh "E" in apply bind_Ok in Hm as (a & E & Hm)).
  apply py_get_Ok in E as [[kvs ->] ->].
  repeat match goal with
         | E : py_get (JObj kvs) _ JNull = Ok _ |- _ => apply py_get_Ok in E as [_ ->]
         end.
  pose proof E0 as E0'. apply py_get_Ok in E0' as [[tb Htb] _].
  pose proof E4 as E4'. apply py_get_Ok in E4' as [[cv Hcv] _].
  rewrite Htb in E0, E1, E2. rewrite Hcv in E4, E5.
  apply py_get_Ok in E0 as [_ ->]. apply py_get_Ok in E2 as [_ ->].
  apply py_get_Ok in E4 as [_ ->].
  exists tb, cv, v7, v10, v15. repeat (split; [assumption|]).
  injection Hm as <-.
  assert (Ht : v1 = py_or (Spec.field (JObj tb) "english")
                      (py_or (Spec.field (JObj tb) "romaji") (JStr "Untitled"))).
  { unfold py_or at 1. destruct (truthy (Spec.field (JObj tb) "english")).
    - now injection E1.
    - apply bind_Ok in E1 as (ro & Ero & E1). apply py_get_Ok in Ero as [_ ->].
      now injection E1. }
  assert (Hi : v5 = py_or (Spec.field (JObj cv) "large")
                      (py_or (Spec.field (JObj cv) "medium") (JStr ""))).
  { unfold py_or at 1. destruct (truthy (Spec.field (JObj cv) "large")).
    - now injection E5.
    - apply bind_Ok in E5 as (md & Emd & E5). apply py_get_Ok in Emd as [_ ->].
      now injection E5. }
  rewrite Ht, Hi. reflexivity.
Qed.

Lemma start_date_of_is_date (sd : json) (dt : date) :
  start_date_of sd = Some dt -> Shape.is_date dt.
Proof.
  unfold start_date_of.
  destruct sd as [| | | | |kvs]; try discriminate.
  rewrite !py_get_obj. cbn [mbind result_bind].
  destruct (truthy (default JNull (assoc "year" kvs))); [|discriminate].
  cbn [mbind result_bind].
  destruct (truthy (default JNull (assoc "month" kvs))); [|discriminate].
  cbn [mbind result_bind].
  destruct (truthy (default JNull (assoc "day" kvs))); [|discriminate].
  destruct (py_int (default JNull (assoc "year" kvs))) as [y|]; [|discriminate].
  destruct (py_int (default JNull (assoc "month" kvs))) as [mo|]; [|discriminate].
  destruct (py_int (default JNull (assoc "day" kvs))) as [d|]; [|discriminate].
  cbn [mbind result_bind]. apply date_new_is_date.
Qed.

(** X4. A record never holds a date that the calendar does not have: the
    [start_date] of every record that [fetch_new] makes is [None] or a
    date that [dt.date] can hold. *)
Theorem mapped_date_valid (media_type : string) (m : json) (it : MediaItem) (dt : date) :
  map_item media_type m = Ok it -> start_date it = Some dt -> Shape.is_date dt.
Proof.
  intros Hit. apply map_item_fields in Hit as (tb & cv & cl & n & d & _ & _ & _ & _ & _ & ->).
  cbn [start_date]. apply start_date_of_is_date.
Qed.

(** X5. An item whose start date has three non-zero integers gets the date
    they make, when the calendar has it, and no date otherwise: the
    [ValueError] of [dt.date] for, say, the 30th of February is swallowed
    and the record shows "Unknown". *)
Theorem integer_date_kept (media_type : string) (m : json) (it : MediaItem) (y mo d : Z) :
  Spec.field (Spec.field m "startDate") "year" = JInt y ->
  Spec.field (Spec.field m "startDate") "month" = JInt mo ->
  Spec.field (Spec.field m "startDate") "day" = JInt d ->
  y <> 0 -> mo <> 0 -> d <> 0 ->
  map_item media_type m = Ok it ->
  start_date it = date_new y mo d /\
  (date_new y mo d = None -> publication_day it = "Unknown").
Proof.
  intros Hy Hmo Hd Hy0 Hmo0 Hd0 Hit.
  apply map_item_fields in Hit as (tb & cv & cl & n & ds & _ & _ & _ & _ & _ & ->).
  cbn [start_date]. unfold publication_day. cbn [start_date].
  assert (Hsd : start_date_of (py_or (Spec.field m "startDate") (JObj [])) = date_new y mo d).
  { rewrite <- (field_py_or (Spec.field m "startDate")) in Hy, Hmo, Hd.
    destruct (py_or (Spec.field m "startDate") (JObj [])) as [| | | | |kvs]; try discriminate.
    unfold Spec.field in Hy, Hmo, Hd. unfold start_date_of.
    rewrite !py_get_obj, Hy, Hmo, Hd. cbn [mbind result_bind truthy].
    destruct (Z.eqb_spec y 0); [contradiction|].
    destruct (Z.eqb_spec mo 0); [contradiction|].
    destruct (Z.eqb_spec d 0); [contradiction|]. reflexivity. }
  rewrite Hsd. split; [reflexivity|]. now intros ->.
Qed.

Lemma py_or_strings (a b : json) (dflt : string) :
  Spec.null_or_string a = true -> Spec.null_or_string b = true -> dflt <> "" ->
  exists s, py_or a (py_or b (JStr dflt)) = JStr s /\ s <> "".
Proof.
  intros Ha Hb Hdflt.
  assert (Hin : exists s, py_or b (JStr dflt) = JStr s /\ s <> "").
  { destruct b as [| | |s| |]; try discriminate; unfold py_or; cbn [truthy]; eauto.
    destruct (String.eqb_spec s ""); cbn [negb]; eauto. }
  destruct Hin as (s & -> & Hs).
  destruct a as [| | |t| |]; try discriminate; unfold py_or; cbn [truthy]; eauto.
  destruct (String.eqb_spec t ""); cbn [negb]; eauto.
Qed.

(** X6. The title of a record is never empty when the API sends strings
    or nulls: it is the English title, or else the romaji one, or else
    "Untitled". *)
Theorem title_never_empty (media_type : string) (m : json) (it : MediaItem) :
  let block := Spec.field m "title" in
  Spec.null_or_string (Spec.field block "english") = true ->
  Spec.null_or_string (Spec.field block "romaji") = true ->
  map_item media_type m = Ok it ->
  title it = py_str (py_or (Spec.field block "english")
                       (py_or (Spec.field block "romaji") (JStr "Untitled"))) /\
  title it <> "".
Proof.
  intros block Hen Hro Hit.
  apply map_item_fields in Hit as (tb & cv & cl & n & d & Htb & _ & _ & _ & _ & ->).
  cbn [title]. rewrite <- Htb, !field_py_or. fold block. split; [reflexivity|].
  destruct (py_or_strings _ _ "Untitled" Hen Hro) as (s & -> & Hs); [discriminate|].
  exact Hs.
Qed.

(** X7. An item whose country code is a key of [COUNTRY_MAP] gets the
    country and the language of the table, and keeps its code. *)
Theorem listed_country (media_type : string) (m : json) (it : MediaItem)
    (code c l : string) :
  Spec.field m "countryOfOrigin" = JStr code ->
  COUNTRY_MAP !! code = Some (c, l) ->
  map_item media_type m = Ok it ->
  country_code it = code /\ country it = c /\ language it = l.
Proof.
  intros Hcc Hlisted Hit.
  apply map_item_fields in Hit as (tb & cv & cl & n & d & _ & _ & Hcl & _ & _ & ->).
  cbn [country_code country language]. rewrite Hcc in *.
  assert (Hcode : py_or (JStr code) (JStr "") = JStr code).
  { unfold py_or. cbn [truthy]. now destruct (String.eqb_spec code "") as [->|]. }
  rewrite Hcode in *. unfold country_language in Hcl. rewrite Hlisted in Hcl.
  injection Hcl as <-. auto.
Qed.

(** X8. An object in which every field the mapping reads is missing or
    null is mapped to the record of the defaults: id 0, the media type of
    the query, "Untitled", "Unknown" for country, language, format and
    status, no date, and empty texts. *)
Theorem missing_fields_default (media_type : string) (kvs : list (string * json)) :
  Forall (fun k => Spec.field (JObj kvs) k = JNull)
    ["title"; "coverImage"; "countryOfOrigin"; "startDate"; "id"; "type"; "format";
     "status"; "description"; "siteUrl"] ->
  map_item media_type (JObj kvs)
    = Ok {| id := 0; media_type := media_type; title := "Untitled"; title_native := "";
            image_url := ""; country_code := ""; country := "Unknown";
            language := "Unknown"; start_date := None; format := "Unknown";
            status := "Unknown"; description := ""; site_url := "" |}.
Proof.
  intros Hnull. repeat (apply Forall_cons_1 in Hnull as [? Hnull]).
  unfold Spec.field in *. unfold map_item. rewrite !py_get_obj.
  repeat match goal with E : default JNull _ = JNull |- _ => rewrite E; clear E end.
  reflexivity.
Qed.

End MoreMapping.

(** ** More on the response *)

Section MoreFetch.
Context `{PyBuiltins}.

Lemma map_items_total (media_type : string) (media : list json) :
  Forall (fun m => Shape.mappable m = true) media ->
  exists out, map_items media_type media = Ok out.
Proof.
  induction 1 as [|m media Hm _ [out IH]]; [now exists []|].
  apply (map_item_mappable media_type) in Hm as [it Hit].
  exists (it :: out). cbn [map_items]. rewrite Hit. cbn [mbind result_bind].
  rewrite IH. reflexivity.
Qed.

Lemma assoc_Some_nonempty (k : string) (kvs : list (string * json)) (v : json) :
  assoc k kvs = Some v -> py_or (JObj kvs) (JObj []) = JObj kvs.
Proof. destruct kvs; [discriminate|reflexivity]. Qed.

Lemma py_or_list (l : list json) : py_or (JArr l) (JArr []) = JArr l.
Proof. now destruct l. Qed.

Lemma default_Some (dflt v : json) : default dflt (Some v) = v.
Proof. reflexivity. Qed.

Lemma default_None (dflt : json) : default dflt None = dflt.
Proof. reflexivity. Qed.

(** X9. When the server answers 200 with an object that has no [errors]
    and whose [data.Page.media] is a list of items the mapping accepts,
    [fetch_new] returns one record for each item, in the order of the
    list. *)
Theorem page_mapped_in_order (net : network) (self : AniListClient) (media_type : string)
    (date_from date_to : date) (per_page : Z) (r : response)
    (kvs dkvs pkvs : list (string * json)) (media : list json) :
  net (fetch_request self media_type date_from date_to per_page) = Ok r ->
  status_code r = 200 -> json_of r = Ok (JObj kvs) ->
  truthy (Spec.field (JObj kvs) "errors") = false ->
  assoc "data" kvs = Some (JObj dkvs) ->
  assoc "Page" dkvs = Some (JObj pkvs) ->
  assoc "media" pkvs = Some (JArr media) ->
  Forall (fun m => Shape.mappable m = true) media ->
  exists out,
    snd (fetch_new net self media_type date_from date_to per_page) = Ok out /\
    length out = length media /\
    Forall2 (fun m it => map_item media_type m = Ok it) media out.
Proof.
  intros Hr H200 Hjson Herr Hdata Hpage Hmedia Hall.
  destruct (map_items_total media_type media Hall) as [out Hout].
  exists out. split.
  - unfold fetch_new. cbn [snd]. rewrite Hr. cbn [mbind result_bind].
    unfold read_response. rewrite H200, Hjson. cbn [Z.eqb Pos.eqb negb mbind result_bind].
    rewrite (py_get_obj kvs "errors"). cbn [mbind result_bind].
    unfold Spec.field in Herr. rewrite Herr.
    rewrite (py_get_obj kvs "data"), Hdata, default_Some. cbn [mbind result_bind].
    rewrite (assoc_Some_nonempty _ _ _ Hpage), py_get_obj, Hpage, default_Some.
    cbn [mbind result_bind].
    rewrite py_get_obj, Hmedia, default_Some. cbn [mbind result_bind].
    rewrite py_or_list. exact Hout.
  - apply map_items_Forall2 in Hout. split; [|exact Hout].
    symmetry. exact (Forall2_length _ _ _ Hout).
Qed.

(** X10. A 200 answer without [errors] that has nothing to list is no
    failure: when [data] is missing or falsy, when [data] has no [Page],
    or when [Page] is an object whose [media] is missing or falsy,
    [fetch_new] returns the empty list. *)
Theorem nothing_listed_is_empty (net : network) (self : AniListClient) (media_type : string)
    (date_from date_to : date) (per_page : Z) (r : response) (kvs : list (string * json)) :
  net (fetch_request self media_type date_from date_to per_page) = Ok r ->
  status_code r = 200 -> json_of r = Ok (JObj kvs) ->
  truthy (Spec.field (JObj kvs) "errors") = false ->
  truthy (Spec.field (JObj kvs) "data") = false \/
  (exists dkvs, Spec.field (JObj kvs) "data" = JObj dkvs /\ dkvs <> [] /\
     (assoc "Page" dkvs = None \/
      exists pkvs, assoc "Page" dkvs = Some (JObj pkvs) /\
        truthy (default (JArr []) (assoc "media" pkvs)) = false)) ->
  snd (fetch_new net self media_type date_from date_to per_page) = Ok [].
Proof.
  intros Hr H200 Hjson Herr Hcase.
  unfold fetch_new. cbn [snd]. rewrite Hr. cbn [mbind result_bind].
  unfold read_response. rewrite H200, Hjson. cbn [Z.eqb Pos.eqb negb mbind result_bind].
  rewrite (py_get_obj kvs "errors"). cbn [mbind result_bind].
  unfold Spec.field in *. rewrite Herr.
  rewrite (py_get_obj kvs "data"). cbn [mbind result_bind].
  destruct Hcase as [Hdata|(dkvs & Hdata & Hne & Hpage)].
  - assert (Hd : py_or (default JNull (assoc "data" kvs)) (JObj []) = JObj [])
      by (unfold py_or; now rewrite Hdata).
    rewrite Hd. reflexivity.
  - rewrite Hdata. assert (Hd : py_or (JObj dkvs) (JObj []) = JObj dkvs)
      by (destruct dkvs; [contradiction|reflexivity]).
    rewrite Hd, py_get_obj. destruct Hpage as [Hpage|(pkvs & Hpage & Hmedia)]; rewrite Hpage.
    + reflexivity.
    + rewrite default_Some. cbn [mbind result_bind]. rewrite py_get_obj. cbn [mbind result_bind].
      unfold py_or. rewrite Hmedia. reflexivity.
Qed.

End MoreFetch.

(** ** More on the worker *)

Section MoreWorker.
Context `{PyBuiltins}.

Lemma posts_in_order_step net w st :
  Shape.posts_in_order net w st -> Shape.posts_in_order net w (step net st).
Proof.
  intros (Hf & Ht & Hpos). unfold step.
  destruct (at_pos st) as [|c|c anime|c anime|anime manga|anime manga|] eqn:Hat.
  - destruct (_abort (self st)); repeat split; cbn; auto.
  - destruct Hpos as [Hp ->]. rewrite try_fetch_eq. cbv zeta.
    rewrite (fetched_dates net w) by assumption.
    destruct (fetched net w "ANIME") as [anime|e] eqn:E; repeat split; cbn; auto;
      rewrite Hp, Hf, Ht; cbn; auto.
  - destruct Hpos as (Hp & -> & Ha). destruct (_abort (self st)); repeat split; cbn; auto.
  - destruct Hpos as (Hp & -> & Ha). rewrite try_fetch_eq. cbv zeta.
    rewrite (fetched_dates net w) by assumption.
    destruct (fetched net w "MANGA") as [manga|e] eqn:E; repeat split; cbn; auto;
      rewrite Hp, Hf, Ht; cbn; eauto.
  - destruct Hpos as (Hp & Ha). destruct (_abort (self st)); repeat split; cbn; eauto.
  - destruct Hpos as (Hp & Ha). repeat split; cbn; eauto.
  - repeat split; auto. now rewrite Hat.
Qed.

Lemma posts_in_order_exec net w evs st :
  Shape.posts_in_order net w st -> Shape.posts_in_order net w (exec net evs st).
Proof.
  revert st. induction evs as [|[|] evs IH]; simpl; intros st Hst; [assumption| |]; apply IH.
  - now apply posts_in_order_step.
  - destruct Hst as (Hf & Ht & Hpos). repeat split; auto.
Qed.

Lemma posted_cases (net : network) (w : FetchWorker) (evs : list event) :
  let sent := posted (exec net evs (start w)) in
  sent = [] \/ sent = [Shape.anime_request w] \/
  (sent = [Shape.anime_request w; Shape.manga_request w] /\
   exists anime, fetched net w "ANIME" = Ok anime).
Proof.
  assert (Hstart : Shape.posts_in_order net w (start w)) by (repeat split).
  destruct (posts_in_order_exec net w evs _ Hstart) as (_ & _ & Hpos).
  destruct (at_pos (exec net evs (start w))); cbv zeta; intuition eauto.
Qed.

(** X11. Whatever the schedule, [run] posts at most two requests: first the
    ANIME query, then the MANGA query, both for the dates of the worker
    and a page of 40; and the MANGA query goes out only after the ANIME
    fetch has returned. *)
Theorem run_posts_in_order (net : network) (w : FetchWorker) (evs : list event) :
  let sent := posted (exec net evs (start w)) in
  sent = [] \/ sent = [Shape.anime_request w] \/
  (sent = [Shape.anime_request w; Shape.manga_request w] /\
   exists anime, fetched net w "ANIME" = Ok anime).
Proof. apply posted_cases. Qed.

Lemma idle_step net st :
  _abort (self st) = true -> at_pos st = Check1 \/ at_pos st = Returned ->
  step net st = goto st Returned \/ step net st = st.
Proof.
  intros Hflag [Hat|Hat]; unfold step; rewrite Hat; [rewrite Hflag|]; auto.
Qed.

(** X12. A worker whose [abort] is called before [run] starts never
    touches the network and never emits a signal, whatever follows. *)
Theorem aborted_before_start_is_idle (net : network) (w : FetchWorker) (evs : list event) :
  posted (exec net evs (abort (start w))) = [] /\
  emitted (exec net evs (abort (start w))) = [].
Proof.
  assert (Hgen : forall st, _abort (self st) = true ->
            at_pos st = Check1 \/ at_pos st = Returned ->
            posted st = [] -> emitted st = [] ->
            posted (exec net evs st) = [] /\ emitted (exec net evs st) = []).
  { induction evs as [|[|] evs IH]; simpl; intros st Hflag Hat Hp He; [auto| |].
    - destruct (idle_step net st Hflag Hat) as [-> | ->]; apply IH; cbn; auto.
    - apply IH; cbn; auto. }
  apply Hgen; cbn; auto.
Qed.

Lemma exec_app net evs later st :
  exec net (evs ++ later) st = exec net later (exec net evs st).
Proof. unfold exec. apply fold_left_app. Qed.

(** X13. [run] emits at most one signal, and that signal is final: once a
    signal is out, no later step or [abort] adds another or changes it. *)
Theorem signal_is_final (net : network) (w : FetchWorker) (evs later : list event)
    (sig : signal) :
  In sig (emitted (exec net evs (start w))) ->
  emitted (exec net evs (start w)) = [sig] /\
  emitted (exec net (evs ++ later) (start w)) = [sig].
Proof.
  intros Hin.
  assert (Hone : emitted (exec net evs (start w)) = [sig]).
  { destruct (emitted_explained net w evs) as [Hem|(sig' & Hem & _)]; rewrite Hem in *.
    - destruct Hin.
    - destruct Hin as [->|[]]. reflexivity. }
  split; [exact Hone|].
  rewrite exec_app, exec_returned; [exact Hone|].
  destruct (on_track_exec net w evs _ (on_track_start net w)) as (_ & _ & Hpos).
  destruct (at_pos (exec net evs (start w))); try reflexivity;
    (assert (Hem : emitted (exec net evs (start w)) = []) by tauto);
    rewrite Hem in Hone; discriminate.
Qed.

(** X14. A [run] that no [abort] interrupts emits exactly one signal: the
    collected list when both fetches return, and otherwise the message of
    the first exception; and it asks for MANGA only when the ANIME fetch
    returned. *)
Theorem run_outcome (net : network) (w : FetchWorker) :
  _abort w = false ->
  emitted (run net w) =
    match fetched net w "ANIME", fetched net w "MANGA" with
    | Ok anime, Ok manga => [finished (collect anime manga)]
    | Ok _, Raise e => [error (str_exn e)]
    | Raise e, _ => [error (str_exn e)]
    end /\
  posted (run net w) =
    match fetched net w "ANIME" with
    | Ok _ => [Shape.anime_request w; Shape.manga_request w]
    | Raise _ => [Shape.anime_request w]
    end.
Proof.
  intros Hflag. split.
  - rewrite run_emitted by assumption.
    destruct (fetched net w "ANIME"); [destruct (fetched net w "MANGA")|]; reflexivity.
  - destruct w as [df dt flag]. cbn [_abort] in Hflag. subst flag.
    unfold run, exec. cbn [repeat fold_left fire].
    cbn [step at_pos goto start self _abort].
    rewrite try_fetch_eq. cbv zeta. cbn [self date_from date_to at_pos posted emitted].
    destruct (fetched net _ "ANIME") as [anime|e].
    + cbn [step at_pos goto start self _abort].
      rewrite try_fetch_eq. cbv zeta. cbn [self date_from date_to at_pos posted emitted goto].
      destruct (fetched net _ "MANGA") as [manga|e];
        cbn [step at_pos goto start self _abort emit emitted posted]; reflexivity.
    + cbn [step at_pos goto start self _abort emit emitted posted]. reflexivity.
Qed.

(** X15. The abort flag is never reset: once set, it stays set through
    every step and every further [abort]. *)
Theorem abort_flag_stays (net : network) (evs : list event) (st : state) :
  _abort (self st) = true -> _abort (self (exec net evs st)) = true.
Proof.
  revert st. induction evs as [|[|] evs IH]; simpl; intros st Hflag; [assumption| |];
    apply IH; [now rewrite step_self | reflexivity].
Qed.

End MoreWorker.

(** ** More on the delivered list *)

Section MoreDelivered.
Context `{PyBuiltins}.

#[local] Abbreviation put :=
  (fun (uniq : list (dict_key * MediaItem)) it => dict_set (item_key it) it uniq).

Lemma dict_set_fresh {V} (k : dict_key) (v : V) (d : list (dict_key * V)) :
  ~ In k (map fst d) -> dict_set k v d = d ++ [(k, v)].
Proof.
  induction d as [|[k0 v0] d IH]; simpl; [reflexivity|].
  intros Hk. destruct (decide (k = k0)) as [->|Hne]; [tauto|].
  rewrite IH; tauto.
Qed.

Lemma fold_put_distinct (items : list MediaItem) (d : list (dict_key * MediaItem)) :
  NoDup (map item_key items) ->
  (forall it, In it items -> ~ In (item_key it) (map fst d)) ->
  fold_left put items d = d ++ map (fun it => (item_key it, it)) items.
Proof.
  revert d. induction items as [|it items IH]; simpl; intros d Hnd Hfresh.
  - now rewrite app_nil_r.
  - apply NoDup_cons in Hnd as [Hit Hnd].
    rewrite dict_set_fresh by auto. rewrite IH; [now rewrite <- app_assoc|assumption|].
    intros x Hx. rewrite map_app, in_app_iff. simpl. intros [Hin|[Heq|[]]].
    + now apply (Hfresh x); auto.
    + apply Hit. rewrite Heq. apply list_elem_of_In, in_map, Hx.
Qed.

Lemma fold_put_values (items : list MediaItem) (d : list (dict_key * MediaItem)) (x : MediaItem) :
  In x (values (fold_left put items d)) -> In x (values d) \/ In x items.
Proof.
  revert d. induction items as [|it items IH]; simpl; intros d Hx; [auto|].
  apply IH in Hx as [Hx|Hx]; [|auto].
  unfold values in *. apply in_map_iff in Hx as ([k v] & Hv & Hin). simpl in Hv. subst v.
  apply dict_set_In_inv in Hin as [[_ ->]|Hin]; [auto|].
  left. now apply (in_map snd _ (k, x)).
Qed.

(** X16. De-duplication leaves a list of pairwise distinct (media_type,
    id) pairs as it is, order included; so it changes nothing when it is
    applied a second time. *)
Theorem dedup_distinct_unchanged (items : list MediaItem) :
  (NoDup (map item_key items) -> dedup items = items) /\
  dedup (dedup items) = dedup items.
Proof.
  assert (Hsame : forall l, NoDup (map item_key l) -> dedup l = l).
  { intros l Hnd. unfold dedup, uniq_of. rewrite fold_put_distinct; [|assumption|auto].
    unfold values. simpl. rewrite map_map. simpl. apply map_id. }
  split; [apply Hsame|]. apply Hsame, dedup_once.
Qed.

(** X17. [run] delivers nothing it did not fetch: every entry of an
    emitted list is one of the records the two fetches returned, and the
    list is no longer than the two results together. *)
Theorem finished_from_fetched (net : network) (w : FetchWorker) (evs : list event)
    (anime manga items : list MediaItem) :
  fetched net w "ANIME" = Ok anime ->
  fetched net w "MANGA" = Ok manga ->
  In (finished items) (emitted (exec net evs (start w))) ->
  (forall x, In x items -> In x (anime ++ manga)) /\
  (length items <= length anime + length manga)%nat.
Proof.
  intros Ha Hm Hin. apply finished_collect in Hin as (anime' & manga' & Ha' & Hm' & ->).
  rewrite Ha in Ha'. rewrite Hm in Hm'. injection Ha' as <-. injection Hm' as <-.
  assert (Hsub : forall x, In x (collect anime manga) -> In x (anime ++ manga)).
  { intros x Hx. apply collect_In in Hx. unfold dedup, uniq_of in Hx.
    apply fold_put_values in Hx as [[]|Hx]. exact Hx. }
  split; [exact Hsub|].
  rewrite <- length_app.
  rewrite (Permutation_length (collect_perm anime manga)).
  rewrite <- (length_map item_key (dedup _)), <- (length_map item_key (anime ++ manga)).
  destruct (dedup_once (anime ++ manga)) as [Hnd Hkeys].
  apply submseteq_length, NoDup_submseteq; [exact Hnd|].
  intros k Hk. apply list_elem_of_In, Hkeys, list_elem_of_In, Hk.
Qed.


(** X19. The worker that [Window._download] creates has its dates in
    order, whichever way round the user picked them, and is not aborted;
    so in every request it posts the lower date bound is at most the
    upper one. *)
Theorem download_bounds_ordered (picked_from picked_to : date) :
  Shape.is_date picked_from -> Shape.is_date picked_to ->
  let w := Window._download picked_from picked_to in
  _abort w = false /\ cmp (date_from w) (date_to w) <> Gt /\
  forall net evs req, In req (posted (exec net evs (start w))) ->
    startGreater (vars (body req)) <= startLesser (vars (body req)).
Proof.
  intros Hf Ht w.
  assert (Hw : _abort w = false /\ cmp (date_from w) (date_to w) <> Gt /\
               Shape.is_date (date_from w) /\ Shape.is_date (date_to w)).
  { unfold w, Window._download, gtb.
    destruct (cmp picked_from picked_to) eqn:E; cbn; repeat split; auto; try congruence.
    apply cmp_Gt_Lt in E. congruence. }
  destruct Hw as (Hflag & Hord & Hdf & Hdt). repeat split; try assumption.
  intros net evs req Hreq.
  assert (Hle : yyyymmdd_int (date_from w) <= yyyymmdd_int (date_to w)).
  { unfold Z.le. rewrite yyyymmdd_int_compare by assumption. exact Hord. }
  pose proof (posted_cases net w evs) as Hsent. cbv zeta in Hsent.
  destruct Hsent as [Hs|[Hs|[Hs _]]]; rewrite Hs in Hreq; simpl in Hreq;
    intuition (subst; exact Hle).
Qed.

End MoreDelivered.

(** ** More on the image cache *)

Section MoreCache.
Import Cache.
Context {pixmap : Type}.
Implicit Types (s self : ImageCache pixmap) (url u : string).

Lemma skips_false self url :
  skips self url = false ->
  url <> "" /\ _cache self !! url = None /\ _pending self !! url = None.
Proof.
  intros Hskip.
  assert (Hnot : ~ (url = "" \/ is_Some (_cache self !! url) \/ is_Some (_pending self !! url))).
  { rewrite <- skips_spec. congruence. }
  repeat split.
  - tauto.
  - destruct (_cache self !! url) eqn:E; [|reflexivity]. exfalso. apply Hnot. eauto.
  - destruct (_pending self !! url) eqn:E; [|reflexivity]. exfalso. apply Hnot. eauto.
Qed.

Lemma remove_first_fresh url (l : list string) :
  ~ In url l -> remove_first url (l ++ [url]) = l.
Proof.
  induction l as [|x l IH]; simpl.
  - intros _. now rewrite String.eqb_refl.
  - intros Hx. destruct (String.eqb_spec url x) as [->|Hne]; [tauto|].
    rewrite IH; tauto.
Qed.

(** X20. The round trip of a download: after [request] for a URL that is
    not empty, cached or pending, and a reply without error whose bytes
    decode, [get] returns the decoded image, [image_ready] has been
    emitted for the URL, nothing is pending for it, and a further
    [request] does nothing. *)
Theorem download_round_trip s url (pix : pixmap) :
  skips s url = false ->
  let s' := complete (request s url) url (mkReply true (Some pix)) in
  get s' url = Some pix /\ image_ready s' = image_ready s ++ [url] /\
  _pending s' !! url = None /\ request s' url = s'.
Proof.
  intros Hskip s'. pose proof (skips_false s url Hskip) as (Hne & Hc & Hp).
  assert (Hs' : s' = mkCache (<[url := pix]> (_cache s)) (delete url (<[url := ()]> (_pending s)))
                             (remove_first url (in_flight s ++ [url]))
                             (image_ready s ++ [url])).
  { unfold s'. rewrite request_issued by assumption.
    unfold complete, _on_finished. cbn [_pending _cache in_flight image_ready no_error decoded].
    now rewrite lookup_insert_eq. }
  rewrite Hs'. cbn [image_ready _pending]. repeat split.
  - unfold get. cbn [_cache]. destruct (String.eqb_spec url ""); [contradiction|].
    apply lookup_insert_eq.
  - apply lookup_delete_eq.
  - apply request_skipped, skips_spec. right. left. cbn [_cache].
    rewrite lookup_insert_eq. eauto.
Qed.

(** X21. A download that fails leaves no trace: in a state the cache can
    reach, [request] for a URL followed by a reply with an error, or with
    bytes that do not decode, gives back the state before the request,
    so the URL can be requested again. *)
Theorem failed_download_undone s url (r : reply pixmap) :
  reachable s -> skips s url = false ->
  (if no_error r then decoded r else None) = None ->
  complete (request s url) url r = s /\ skips (complete (request s url) url r) url = false.
Proof.
  intros Hreach Hskip Hfail. pose proof (skips_false s url Hskip) as (Hne & Hc & Hp).
  destruct (reachable_tracked s Hreach) as [_ Hin].
  assert (Hfresh : ~ In url (in_flight s)).
  { rewrite Hin, Hp. intros [? [=]]. }
  assert (Hback : complete (request s url) url r = s).
  { rewrite request_issued by assumption.
    unfold complete, _on_finished. cbn [_pending _cache in_flight image_ready].
    rewrite lookup_insert_eq, Hfail, remove_first_fresh by assumption.
    rewrite delete_insert_id by assumption. now destruct s. }
  split; [exact Hback|]. now rewrite Hback.
Qed.

(** What every reachable state of the cache satisfies. *)
#[local] Abbreviation sound s :=
  ((forall u, is_Some (_cache s !! u) -> _pending s !! u = None) /\
   _cache s !! "" = None /\ _pending s !! "" = None /\
   (forall u, In u (image_ready s) -> is_Some (_cache s !! u))).

Lemma sound_request s url : sound s -> sound (request s url).
Proof.
  intros (Hdis & Hc0 & Hp0 & Hready). destruct (skips s url) eqn:E.
  - rewrite request_skipped by assumption. auto.
  - pose proof (skips_false s url E) as (Hne & Hc & Hp).
    rewrite request_issued by assumption. cbn [_cache _pending image_ready].
    repeat split; auto.
    + intros u Hu. destruct (decide (url = u)) as [->|Hneq].
      * rewrite Hc in Hu. now destruct Hu.
      * rewrite lookup_insert_ne by assumption. auto.
    + rewrite lookup_insert_ne by assumption. assumption.
Qed.

Lemma sound_complete s url (r : reply pixmap) : sound s -> sound (complete s url r).
Proof.
  intros (Hdis & Hc0 & Hp0 & Hready). unfold complete, _on_finished.
  cbn [_pending _cache in_flight image_ready].
  destruct (_pending s !! url) as [rep|] eqn:Hp; [|cbn; auto].
  assert (Hne : url <> "") by (intros ->; congruence).
  destruct (if no_error r then decoded r else None) as [pix|];
    cbn [_cache _pending image_ready]; repeat split; auto.
  - intros u Hu. destruct (decide (url = u)) as [->|Hneq].
    + apply lookup_delete_eq.
    + rewrite lookup_delete_ne by assumption. apply Hdis.
      now rewrite lookup_insert_ne in Hu.
  - rewrite lookup_insert_ne by assumption. assumption.
  - rewrite lookup_delete_ne by assumption. assumption.
  - intros u Hu. apply in_app_or in Hu as [Hu|[<-|[]]].
    + destruct (decide (url = u)) as [->|Hneq].
      * rewrite lookup_insert_eq. eauto.
      * rewrite lookup_insert_ne by assumption. auto.
    + rewrite lookup_insert_eq. eauto.
  - intros u Hu. destruct (decide (url = u)) as [->|Hneq].
    + apply lookup_delete_eq.
    + rewrite lookup_delete_ne by assumption. auto.
  - rewrite lookup_delete_ne by assumption. assumption.
Qed.

Lemma reachable_sound s : reachable s -> sound s.
Proof.
  induction 1 as [|s s' Hs IH Hstep].
  - unfold new_cache. cbn [_cache _pending image_ready].
    repeat split; try apply lookup_empty.
    + intros u [].
  - destruct Hstep; [now apply sound_request | now apply sound_complete].
Qed.

(** X22. In every state the cache can reach: no URL is both cached and
    pending; the empty URL is neither; every URL announced through
    [image_ready] is cached; and [get] returns just what [_cache] holds. *)
Theorem cache_state_sound s :
  reachable s ->
  (forall u, is_Some (_cache s !! u) -> _pending s !! u = None) /\
  _cache s !! "" = None /\ _pending s !! "" = None /\
  (forall u, In u (image_ready s) -> is_Some (_cache s !! u)) /\
  (forall u, get s u = _cache s !! u).
Proof.
  intros Hreach. destruct (reachable_sound s Hreach) as (Hdis & Hc0 & Hp0 & Hready).
  repeat split; auto.
  intros u. unfold get. destruct (String.eqb_spec u "") as [->|]; [now rewrite Hc0|reflexivity].
Qed.

(** X23. The cache never evicts and never replaces an image: what [get]
    returns for a URL in a reachable state, it returns after every
    further request and every further completed download. *)
Theorem cache_keeps_images s s' u (pix : pixmap) :
  reachable s -> cache_step s s' -> get s u = Some pix -> get s' u = Some pix.
Proof.
  intros Hreach Hstep. pose proof (reachable_sound s Hreach) as (Hdis & Hc0 & _ & _).
  unfold get. destruct (String.eqb_spec u "") as [->|Hne]; [discriminate|].
  intros Hu. destruct Hstep as [self url|self url r Hurl].
  - unfold request. now destruct (skips self url).
  - unfold complete, _on_finished. cbn [_pending _cache in_flight image_ready].
    destruct (_pending self !! url) as [rep|] eqn:Hp; [|assumption].
    destruct (if no_error r then decoded r else None) as [new|]; cbn [_cache]; [|assumption].
    destruct (decide (url = u)) as [->|Hneq].
    + rewrite Hdis in Hp by eauto. discriminate.
    + now rewrite lookup_insert_ne.
Qed.

End MoreCache.

(** ** The further properties on examples *)

Section MoreExamples.
Import Examples.

Lemma yyyymmdd_int_order_witness :
  Z.compare (yyyymmdd_int (mkDate 2023 12 31)) (yyyymmdd_int (mkDate 2024 1 1))
    = cmp (mkDate 2023 12 31) (mkDate 2024 1 1).
Proof. apply yyyymmdd_int_order; reflexivity. Defined.

Lemma publication_day_inj_witness : start_date frieren = start_date berserk.
Proof.
  apply publication_day_inj.
  - intros d [= <-]. reflexivity.
  - intros d [= <-]. reflexivity.
  - reflexivity.
Defined.

Lemma map_item_returns_iff_witness :
  Shape.mappable (api_item 100 "ANIME" "Frieren" 2024 1 5) = true /\
  Shape.mappable (JObj [("title", JStr "Frieren")]) = false.
Proof.
  split.
  - apply (proj1 (map_item_returns_iff "ANIME" _)). eexists. vm_compute. reflexivity.
  - apply (proj2 (map_item_returns_iff "ANIME" _)). eexists. vm_compute. reflexivity.
Defined.

Lemma mapped_date_valid_witness : Shape.is_date (mkDate 2024 1 5).
Proof.
  apply (mapped_date_valid "ANIME" (api_item 100 "ANIME" "Frieren" 2024 1 5) frieren).
  - vm_compute. reflexivity.
  - reflexivity.
Defined.

Lemma integer_date_kept_witness :
  let m := JObj [("startDate", JObj [("year", JInt 2024); ("month", JInt 2); ("day", JInt 30)])] in
  exists it, map_item "ANIME" m = Ok it /\ start_date it = None /\
             publication_day it = "Unknown".
Proof.
  intros m. eexists. split; [vm_compute; reflexivity|].
  match goal with |- start_date ?it = _ /\ _ =>
    destruct (integer_date_kept "ANIME" m it 2024 2 30) as [Hdate Hshown]
  end; try reflexivity; try discriminate.
  split; [exact Hdate|]. apply Hshown. reflexivity.
Defined.

Lemma title_never_empty_witness : title frieren = "Frieren" /\ title frieren <> "".
Proof.
  apply (title_never_empty "ANIME" (api_item 100 "ANIME" "Frieren" 2024 1 5) frieren).
  - reflexivity.
  - reflexivity.
  - vm_compute. reflexivity.
Defined.

Lemma listed_country_witness :
  country_code frieren = "JPN" /\ country frieren = "Japan" /\ language frieren = "Japanese".
Proof.
  apply (listed_country "ANIME" (api_item 100 "ANIME" "Frieren" 2024 1 5)).
  - reflexivity.
  - vm_compute. reflexivity.
  - vm_compute. reflexivity.
Defined.

Lemma missing_fields_default_witness :
  map_item "MANGA" (JObj [("id", JNull); ("volumes", JInt 3)])
    = Ok {| id := 0; media_type := "MANGA"; title := "Untitled"; title_native := "";
            image_url := ""; country_code := ""; country := "Unknown";
            language := "Unknown"; start_date := None; format := "Unknown";
            status := "Unknown"; description := ""; site_url := "" |}.
Proof. apply missing_fields_default. repeat constructor. Defined.

Lemma page_mapped_in_order_witness :
  exists out,
    snd (fetch_new same_day (new_client 25) "ANIME" (mkDate 2024 1 1) (mkDate 2024 1 31) 40)
      = Ok out /\
    length out = 1%nat /\
    Forall2 (fun m it => map_item "ANIME" m = Ok it)
      [api_item 100 "ANIME" "Frieren" 2024 1 5] out.
Proof.
  apply (page_mapped_in_order same_day (new_client 25) "ANIME" (mkDate 2024 1 1)
           (mkDate 2024 1 31) 40
           (ok_response (page [api_item 100 "ANIME" "Frieren" 2024 1 5]))
           [("data", JObj [("Page", JObj [("media", JArr [api_item 100 "ANIME" "Frieren" 2024 1 5])])])]
           [("Page", JObj [("media", JArr [api_item 100 "ANIME" "Frieren" 2024 1 5])])]
           [("media", JArr [api_item 100 "ANIME" "Frieren" 2024 1 5])]
           [api_item 100 "ANIME" "Frieren" 2024 1 5]);
    try reflexivity.
  repeat constructor.
Defined.

Lemma nothing_listed_is_empty_witness :
  snd (fetch_new partly_dated (new_client 25) "MANGA" (mkDate 2024 1 1) (mkDate 2024 1 31) 40)
    = Ok [].
Proof.
  apply (nothing_listed_is_empty partly_dated (new_client 25) "MANGA" (mkDate 2024 1 1)
           (mkDate 2024 1 31) 40 (ok_response (page []))
           [("data", JObj [("Page", JObj [("media", JArr [])])])]); try reflexivity.
  right. exists [("Page", JObj [("media", JArr [])])].
  split; [reflexivity|]. split; [discriminate|].
  right. exists [("media", JArr [])]. split; reflexivity.
Defined.

Lemma signal_is_final_witness :
  emitted (exec same_day (repeat Step 6) (start january)) = [finished [berserk; frieren]] /\
  emitted (exec same_day (repeat Step 6 ++ [Abort; Step]) (start january))
    = [finished [berserk; frieren]].
Proof.
  apply signal_is_final. vm_compute. left. reflexivity.
Defined.

Lemma run_outcome_witness :
  emitted (run same_day january) = [finished [berserk; frieren]] /\
  posted (run same_day january) = [Shape.anime_request january; Shape.manga_request january].
Proof.
  destruct (run_outcome same_day january) as [Hem Hpost]; [reflexivity|].
  split; [rewrite Hem|rewrite Hpost]; vm_compute; reflexivity.
Defined.

Lemma abort_flag_stays_witness :
  _abort (self (exec same_day [Step; Step; Abort; Step] (abort (start january)))) = true.
Proof. apply abort_flag_stays. reflexivity. Defined.

Lemma dedup_distinct_unchanged_witness :
  dedup [frieren; berserk] = [frieren; berserk] /\
  dedup (dedup [frieren; frieren_tv; berserk]) = dedup [frieren; frieren_tv; berserk].
Proof.
  split.
  - apply (proj1 (dedup_distinct_unchanged [frieren; berserk])).
    apply (bool_decide_unpack _). vm_compute. exact I.
  - apply (proj2 (dedup_distinct_unchanged [frieren; frieren_tv; berserk])).
Defined.

Lemma finished_from_fetched_witness :
  (forall x, In x [frieren_tv; berserk] -> In x ([frieren; frieren_tv] ++ [berserk])) /\
  (length [frieren_tv; berserk] <= length [frieren; frieren_tv] + length [berserk])%nat.
Proof.
  apply (finished_from_fetched repeats january (repeat Step 6)).
  - vm_compute. reflexivity.
  - vm_compute. reflexivity.
  - vm_compute. left. reflexivity.
Defined.


Lemma download_bounds_ordered_witness :
  let w := Window._download (mkDate 2024 1 31) (mkDate 2024 1 1) in
  date_from w = mkDate 2024 1 1 /\ date_to w = mkDate 2024 1 31 /\
  forall req, In req (posted (run same_day w)) ->
    startGreater (vars (body req)) <= startLesser (vars (body req)).
Proof.
  intros w.
  destruct (download_bounds_ordered (mkDate 2024 1 31) (mkDate 2024 1 1)) as (_ & _ & Hreq);
    try reflexivity.
  split; [reflexivity|]. split; [reflexivity|].
  intros req. apply (Hreq same_day (repeat Step 6)).
Defined.

Lemma download_round_trip_witness :
  let cover := "https://img.anili.st/cover/100.png" in
  let s := Cache.complete (Cache.request (@Cache.new_cache unit) cover) cover
             (Cache.mkReply true (Some tt)) in
  Cache.get s cover = Some tt /\ Cache.image_ready s = [] ++ [cover] /\
  Cache._pending s !! cover = None /\ Cache.request s cover = s.
Proof.
  intros cover s. apply (download_round_trip (@Cache.new_cache unit) cover tt).
  vm_compute. reflexivity.
Defined.

Lemma failed_download_undone_witness :
  let cover := "https://img.anili.st/cover/100.png" in
  let s := Cache.complete (Cache.request (@Cache.new_cache unit) cover) cover
             (Cache.mkReply false None) in
  s = Cache.new_cache /\ Cache.skips s cover = false.
Proof.
  intros cover s. apply (failed_download_undone (@Cache.new_cache unit) cover).
  - apply Cache.reach_new.
  - vm_compute. reflexivity.
  - reflexivity.
Defined.

Lemma cache_state_sound_witness :
  let s := Cache.request (@Cache.new_cache unit) "https://img.anili.st/cover/100.png" in
  (forall u, is_Some (Cache._cache s !! u) -> Cache._pending s !! u = None) /\
  Cache._cache s !! "" = None /\ Cache._pending s !! "" = None /\
  (forall u, In u (Cache.image_ready s) -> is_Some (Cache._cache s !! u)) /\
  (forall u, Cache.get s u = Cache._cache s !! u).
Proof.
  intros s. apply cache_state_sound.
  eapply Cache.reach_step; [apply Cache.reach_new|apply Cache.step_request].
Defined.

Lemma cache_keeps_images_witness :
  let cover := "https://img.anili.st/cover/100.png" in
  let s := Cache.complete (Cache.request (@Cache.new_cache unit) cover) cover
             (Cache.mkReply true (Some tt)) in
  Cache.get (Cache.request s "https://img.anili.st/cover/7.png") cover = Some tt.
Proof.
  intros cover s. apply (cache_keeps_images s).
  - eapply Cache.reach_step.
    + eapply Cache.reach_step; [apply Cache.reach_new|apply Cache.step_request].
    + apply Cache.step_finished. vm_compute. left. reflexivity.
  - apply Cache.step_request.
  - vm_compute. reflexivity.
Defined.

End MoreExamples.
